(** * TextInput: the debounced, validated text field of learn.framerfx

    A shallow embedding of [code/TextInput.tsx].  The component is a React
    function component: its hooks memory (one [useState] cell, one [useRef]
    cell), the timers it has handed to [setTimeout] and the callbacks it has
    invoked are gathered in a record, and every handler of the source is a
    function on that record.  A handler is a closure of the render that
    created it, so it takes the props and the state of that render as
    arguments; [setState] replaces the cell without changing what the closure
    reads. *)

From Stdlib Require Import Bool Arith List String QArith Lia.
Import ListNotations.

Local Open Scope string_scope.
Local Open Scope list_scope.
Local Open Scope Q_scope.

(** ** JavaScript values of type [string | undefined] *)

Module Js.

(** [None] is [undefined]. *)
Definition text := option string.

(** Truthiness: [undefined] and the empty string are falsy. *)
Definition truthy (v : text) : bool :=
  match v with
  | Some (String _ _) => true
  | _ => false
  end.

(** [a || b] *)
Definition or (a b : text) : text := if truthy a then a else b.

(** [v.length], read only where [v] is a string. *)
Definition length (v : text) : nat :=
  match v with
  | Some s => String.length s
  | None => 0
  end.

(** [a === b] *)
Definition eqb (a b : text) : bool :=
  match a, b with
  | Some x, Some y => String.eqb x y
  | None, None => true
  | _, _ => false
  end.

(** What the [<input>] element shows: [value || ""]. *)
Definition shown (v : text) : string :=
  match or v (Some "") with
  | Some s => s
  | None => ""
  end.

End Js.

(** ** Data model *)

(** The props the logic reads.  [initialValue] is the prop [value], under the
    name the component gives it.  [delay] is in seconds; it is a number that
    the code only compares with zero and scales, taken here as a rational. *)
Record Props := {
  initialValue : Js.text;
  required : bool;
  readOnly : bool;
  validation : Js.text -> bool;
  delay : Q
}.

(** The object held by [useState]. *)
Record State := {
  value : Js.text;
  valid : bool;
  typing : bool;
  focused : bool
}.

(** Invocations of the callback props. *)
Inductive Call :=
| onInputStart
| onValueChange (v : Js.text) (ok : bool)
| onFocus (v : Js.text) (ok : bool)
| onBlur (v : Js.text) (ok : bool).

(** A callback given to [setTimeout]: [() => updateState(value)], with the
    props and state of the render whose [handleInput] created it. *)
Record Timer := {
  due : Q;
  env_props : Props;
  env_state : State;
  arg : Js.text
}.

(** One mounted component.  [clock] and [due] are in milliseconds. *)
Record Instance := {
  props : Props;
  state : State;
  inputValue : Js.text;
  timers : list Timer;
  calls : list Call;
  clock : Q
}.

(** ** Primitive effects *)

Definition setState (s : State) (w : Instance) : Instance :=
  {| props := props w; state := s; inputValue := inputValue w;
     timers := timers w; calls := calls w; clock := clock w |}.

(** [inputValue.current = v] *)
Definition setCurrent (v : Js.text) (w : Instance) : Instance :=
  {| props := props w; state := state w; inputValue := v;
     timers := timers w; calls := calls w; clock := clock w |}.

Definition invoke (c : Call) (w : Instance) : Instance :=
  {| props := props w; state := state w; inputValue := inputValue w;
     timers := timers w; calls := calls w ++ [c]; clock := clock w |}.

Definition setTimeout (p : Props) (s : State) (v : Js.text) (ms : Q)
    (w : Instance) : Instance :=
  {| props := props w; state := state w; inputValue := inputValue w;
     timers := timers w ++
       [{| due := clock w + ms; env_props := p; env_state := s; arg := v |}];
     calls := calls w; clock := clock w |}.

Definition setProps (p : Props) (w : Instance) : Instance :=
  {| props := p; state := state w; inputValue := inputValue w;
     timers := timers w; calls := calls w; clock := clock w |}.

Definition setTimers (ts : list Timer) (w : Instance) : Instance :=
  {| props := props w; state := state w; inputValue := inputValue w;
     timers := ts; calls := calls w; clock := clock w |}.

Definition setClock (t : Q) (w : Instance) : Instance :=
  {| props := props w; state := state w; inputValue := inputValue w;
     timers := timers w; calls := calls w; clock := t |}.

(** ** The component's functions *)

(** [const validate = value =>
      value && value.length > 0 ? validation(value || initialValue) : !required] *)
Definition validate (p : Props) (v : Js.text) : bool :=
  if Js.truthy v && (0 <? Js.length v)%nat
  then validation p (Js.or v (initialValue p))
  else negb (required p).

(** The argument of [useState]. *)
Definition initialState (p : Props) : State :=
  {| value := initialValue p;
     valid := validation p (initialValue p);
     typing := false;
     focused := false |}.

(** [setFocus] *)
Definition setFocus (p : Props) (s : State) (f : bool) (w : Instance) : Instance :=
  let w1 := if f then invoke (onFocus (value s) (valid s)) w
            else invoke (onBlur (value s) (valid s)) w in
  setState {| value := value s; valid := valid s; typing := typing s;
              focused := f |} w1.

(** [updateState] *)
Definition updateState (p : Props) (s : State) (v : Js.text) (w : Instance)
    : Instance :=
  if Js.eqb v (inputValue w) then
    let ok := if Js.truthy v then validate p v else negb (required p) in
    let w1 := invoke (onValueChange v ok) w in
    setState {| value := v; valid := ok; typing := false;
                focused := focused s |} w1
  else w.

(** [handleInput]; [text] is [event.target.value], always a string. *)
Definition handleInput (p : Props) (s : State) (text : string) (w : Instance)
    : Instance :=
  let v := Some text in
  let w1 := setCurrent v w in
  let w2 := if negb (typing s) then invoke onInputStart w1 else w1 in
  let w3 := setState {| value := v; valid := valid s; typing := true;
                        focused := focused s |} w2 in
  match 0 ?= delay p with
  | Lt => setTimeout p s v (delay p * 1000) w3
  | _ => updateState p s v w3
  end.

(** [handleClear] *)
Definition handleClear (p : Props) (s : State) (w : Instance) : Instance :=
  if readOnly p then w
  else setState {| value := None; valid := valid s; typing := typing s;
                   focused := focused s |} w.

(** The effect with dependencies [[initialValue]]. *)
Definition effectInitialValue (p : Props) (s : State) (w : Instance) : Instance :=
  let w1 := setCurrent (initialValue p) w in
  setState {| value := initialValue p; valid := validate p (value s);
              typing := typing s; focused := focused s |} w1.

(** The effect with dependencies [[validation, required]]. *)
Definition effectValidation (p : Props) (s : State) (w : Instance) : Instance :=
  setState {| value := value s; valid := validate p (value s);
              typing := typing s; focused := focused s |} w.

(** ** Renders

    The first render runs the [useState] initialiser and stores the prop in
    the ref; both effects run once it is committed.  Every call of [setState]
    replaces the whole state object, so of the two calls made by the effects
    of one render the later one decides the next state; both read the state
    of the render they belong to. *)

Definition firstRender (p : Props) : Instance :=
  {| props := p; state := initialState p; inputValue := initialValue p;
     timers := []; calls := []; clock := 0 |}.

Definition mount (p : Props) : Instance :=
  let w := firstRender p in
  effectValidation p (state w) (effectInitialValue p (state w) w).

(** New props from the parent.  A field left at [None] is passed again with
    the value (for [validation]: the very function) of the last render. *)
Record Update := {
  newValue : option Js.text;
  newRequired : option bool;
  newReadOnly : option bool;
  newValidation : option (Js.text -> bool);
  newDelay : option Q
}.

Definition updated (u : Update) (p : Props) : Props :=
  {| initialValue := match newValue u with Some v => v | None => initialValue p end;
     required := match newRequired u with Some b => b | None => required p end;
     readOnly := match newReadOnly u with Some b => b | None => readOnly p end;
     validation := match newValidation u with Some f => f | None => validation p end;
     delay := match newDelay u with Some d => d | None => delay p end |}.

(** The dependency lists, compared with the last render as React does. *)
Definition initialValueChanged (u : Update) (p : Props) : bool :=
  negb (Js.eqb (initialValue (updated u p)) (initialValue p)).

Definition validationChanged (u : Update) (p : Props) : bool :=
  match newValidation u with Some _ => true | None => false end
  || negb (Bool.eqb (required (updated u p)) (required p)).

Definition receiveProps (u : Update) (w : Instance) : Instance :=
  let p := updated u (props w) in
  let s := state w in
  let w0 := setProps p w in
  let w1 := if initialValueChanged u (props w)
            then effectInitialValue p s w0 else w0 in
  if validationChanged u (props w) then effectValidation p s w1 else w1.

(** ** Events *)

Inductive Event :=
| Change (text : string)
| Focus
| Blur
| Clear
| Receive (u : Update).

(** An event runs the handler of the latest render.  New props are an event
    of their own: they arrive once the state set by the handler before them
    has been rendered.  Props that a parent passes from inside a callback,
    while the handler that invoked it is still running, are not modelled. *)
Definition handle (e : Event) (w : Instance) : Instance :=
  match e with
  | Change text => handleInput (props w) (state w) text w
  | Focus => setFocus (props w) (state w) true w
  | Blur => setFocus (props w) (state w) false w
  | Clear => handleClear (props w) (state w) w
  | Receive u => receiveProps u w
  end.

(** A timer that comes due runs its callback. *)
Definition fire (tm : Timer) (w : Instance) : Instance :=
  updateState (env_props tm) (env_state tm) (arg tm) w.

(** ** Time

    The pending timer that fires next is the one due first, and among those
    due together the one set first. *)

Fixpoint pick (ts : list Timer) : option (Timer * list Timer) :=
  match ts with
  | [] => None
  | t :: rest =>
      match pick rest with
      | None => Some (t, [])
      | Some (m, rest') =>
          if Qle_bool (due t) (due m) then Some (t, rest)
          else Some (m, t :: rest')
      end
  end.

(** Is a timer due at [t] to fire before the deadline?  No deadline: yes. *)
Definition within (deadline : option Q) (t : Q) : bool :=
  match deadline with
  | Some d => Qle_bool t d
  | None => true
  end.

(** Fire, in order, the timers that are due by the deadline. *)
Fixpoint elapse (fuel : nat) (deadline : option Q) (w : Instance) : Instance :=
  match fuel with
  | O => w
  | S n =>
      match pick (timers w) with
      | Some (tm, rest) =>
          if within deadline (due tm)
          then elapse n deadline (fire tm (setClock (due tm) (setTimers rest w)))
          else w
      | None => w
      end
  end.

(** Let the time pass until [t]. *)
Definition advance (t : Q) (w : Instance) : Instance :=
  setClock t (elapse (List.length (timers w)) (Some t) w).

(** Let every pending timer fire. *)
Definition settle (w : Instance) : Instance :=
  elapse (List.length (timers w)) None w.

(** A session: events with the times at which they happen. *)
Fixpoint run (evs : list (Q * Event)) (w : Instance) : Instance :=
  match evs with
  | [] => w
  | (t, e) :: rest => run rest (handle e (advance t w))
  end.

(** The value-changed notifications among the callbacks invoked. *)
Fixpoint commits (cs : list Call) : list (Js.text * bool) :=
  match cs with
  | [] => []
  | onValueChange v ok :: rest => (v, ok) :: commits rest
  | _ :: rest => commits rest
  end.

(** ** The validity rule, in the words of the specification

    [valid = value.length > 0 ? validator(value) : !required], an absent
    value counting as empty. *)

Definition validity (p : Props) (v : Js.text) : bool :=
  if (0 <? Js.length v)%nat then validation p v else negb (required p).

(** ** Reachable instances

    The instances a component can be in: after its mount, after an event
    that [ok] admits, after any pending timer has fired, and as time
    passes.  Timers fire here in any order, which covers the order of
    [elapse]. *)

Inductive reachable (ok : Instance -> Event -> Prop) (p : Props)
    : Instance -> Prop :=
| reach_mount : reachable ok p (mount p)
| reach_event w e :
    reachable ok p w -> ok w e -> reachable ok p (handle e w)
| reach_fire w l1 tm l2 :
    reachable ok p w -> timers w = l1 ++ tm :: l2 ->
    reachable ok p (fire tm (setTimers (l1 ++ l2) w))
| reach_tick w t :
    reachable ok p w -> reachable ok p (setClock t w).

Definition anyEvent (w : Instance) (e : Event) : Prop := True.

(** Events that leave the initial-value prop as it is, and that change the
    validator or the required flag only while no timer is pending. *)
Definition quiet (w : Instance) (e : Event) : Prop :=
  match e with
  | Receive u =>
      initialValueChanged u (props w) = false /\
      (validationChanged u (props w) = true -> timers w = [])
  | _ => True
  end.

(** Events that do not start a validation pass. *)
Definition passive (w : Instance) (e : Event) : Prop :=
  match e with
  | Change _ => 0 < delay (props w)
  | Focus | Blur | Clear => True
  | Receive _ => False
  end.

(** ** Sample props and sessions *)

Module Sample.

(** [v => v.length >= 3] *)
Definition atLeast3 (v : Js.text) : bool := (3 <=? Js.length v)%nat.

Definition field (init : string) (req : bool) (d : Q) : Props :=
  {| initialValue := Some init; required := req; readOnly := false;
     validation := atLeast3; delay := d |}.

(** delay = 0.25 s, required, at least three characters. *)
Definition signup : Props := field "" true (1 # 4).

(** "a", "ab", "abc", 100 ms apart. *)
Definition burst : list (Q * Event) :=
  [(0, Change "a"); (100, Change "ab"); (200, Change "abc")].

(** "a", "ab", then back to "a" and again "ab", 100 ms apart. *)
Definition retyped : list (Q * Event) :=
  [(0, Change "a"); (100, Change "ab"); (200, Change "a"); (300, Change "ab")].

Definition valueTo (v : string) : Update :=
  {| newValue := Some (Some v); newRequired := None; newReadOnly := None;
     newValidation := None; newDelay := None |}.

Definition requiredTo (b : bool) : Update :=
  {| newValue := None; newRequired := Some b; newReadOnly := None;
     newValidation := None; newDelay := None |}.

End Sample.

(** The input-start signal of a keystroke: [if (!state.typing) onInputStart()]. *)
Definition started (s : State) : list Call :=
  if typing s then [] else [onInputStart].

(** ** Invariant of the reachable instances *)

(** A timer agrees with props that have its validator and required flag. *)
Definition agrees (p : Props) (tm : Timer) : Prop :=
  validation (env_props tm) = validation p /\ required (env_props tm) = required p.

(** Outside typing, a value that has not been cleared has its validity. *)
Definition settledValid (w : Instance) : Prop :=
  typing (state w) = false -> value (state w) <> None ->
  valid (state w) = validity (props w) (value (state w)).

Definition Inv (w : Instance) : Prop :=
  settledValid w /\ Forall (agrees (props w)) (timers w).

(** ** Bursts of keystrokes *)

(** A timer is current when its text is the one held in the ref. *)
Definition current (w : Instance) (tm : Timer) : bool :=
  Js.eqb (arg tm) (inputValue w).

Definition keystrokes (ks : list (Q * string)) : list (Q * Event) :=
  map (fun k => (fst k, Change (snd k))) ks.

(** Each keystroke comes less than [ms] milliseconds after the one before,
    the first of them after [t]. *)
Fixpoint paced (ms t : Q) (ks : list (Q * string)) : Prop :=
  match ks with
  | [] => True
  | (t', _) :: rest => t <= t' /\ t' < t + ms /\ paced ms t' rest
  end.

(** What holds between the keystrokes of a burst whose last keystroke, at
    [t], typed [v] after the texts [seen]: the ref holds [v]; every pending
    timer was set under [p] for one of these texts; a timer for [v] is the
    one set at [t]; and exactly one pending timer is current. *)
Definition burstInv (p : Props) (t : Q) (v : string) (seen : list string)
    (w : Instance) : Prop :=
  props w = p /\ inputValue w = Some v /\ clock w = t
  /\ Forall (fun tm => env_props tm = p
                     /\ (arg tm = Some v -> due tm = t + delay p * 1000)
                     /\ In (arg tm) (map Some (v :: seen))) (timers w)
  /\ List.length (filter (current w) (timers w)) = 1%nat.

(** ** Defaults and presentation *)

(** [TextInput.defaultProps], as far as the logic reads them:
    [value: undefined], [required: false], [readOnly: false],
    [validation: v => true], [delay: 0.25]. *)
Definition defaultProps : Props :=
  {| initialValue := None; required := false; readOnly := false;
     validation := fun _ => true; delay := 1 # 4 |}.

(** Is the clear button rendered?  [clearable && value && !readOnly], with
    the prop [clearable] of the render. *)
Definition clearShown (clearable : bool) (p : Props) (s : State) : bool :=
  clearable && Js.truthy (value s) && negb (readOnly p).

(** ** Further invariants *)

(** The events of the user: all but new props. *)
Definition userEvent (w : Instance) (e : Event) : Prop :=
  match e with
  | Receive _ => False
  | _ => True
  end.

(** Events that leave the initial-value prop as it is. *)
Definition keepsValue (w : Instance) (e : Event) : Prop :=
  match e with
  | Receive u => initialValueChanged u (props w) = false
  | _ => True
  end.

(** Events other than new props that change the initial value together with
    the validator or the required flag. *)
Definition oneAtATime (w : Instance) (e : Event) : Prop :=
  match e with
  | Receive u =>
      initialValueChanged u (props w) && validationChanged u (props w) = false
  | _ => True
  end.

(** The props are [p], for the instance and for every pending timer. *)
Definition under (p : Props) (w : Instance) : Prop :=
  props w = p /\ Forall (fun tm => env_props tm = p) (timers w).

(** Every value-changed notification carried the validity of its value. *)
Definition honest (p : Props) (w : Instance) : Prop :=
  Forall (fun c => snd c = validity p (fst c)) (commits (calls w)).

(** While [typing] is set, a pending timer is current. *)
Definition awaited (w : Instance) : Prop :=
  typing (state w) = true ->
  exists tm, In tm (timers w) /\ current w tm = true.

(** The value of the state is the one held in the ref, unless cleared. *)
Definition mirrored (w : Instance) : Prop :=
  value (state w) = None \/ value (state w) = inputValue w.

(** The state a commit of the ref's text leaves, up to [focused]. *)
Definition committed (p : Props) (w : Instance) : Prop :=
  value (state w) = inputValue w
  /\ valid (state w) = validity p (inputValue w)
  /\ typing (state w) = false.

(** The value-changed callback with a pair. *)
Definition notify (c : Js.text * bool) : Call := onValueChange (fst c) (snd c).

(** * Properties *)

(** ** Values *)

Lemma Js_eqb_spec a b : reflect (a = b) (Js.eqb a b).
Proof.
  destruct a as [x|], b as [y|]; simpl; try (constructor; congruence).
  destruct (String.eqb_spec x y); constructor; congruence.
Qed.

Lemma Js_eqb_refl a : Js.eqb a a = true.
Proof. destruct (Js_eqb_spec a a); congruence. Qed.

Lemma Js_eqb_neq a b : a <> b -> Js.eqb a b = false.
Proof. intros H. destruct (Js_eqb_spec a b); congruence. Qed.

(** [validate] computes the rule, and so does the guarded call of it in
    [updateState]. *)
Lemma validate_validity p v : validate p v = validity p v.
Proof. destruct v as [[|c s]|]; reflexivity. Qed.

Lemma guarded_validate_validity p v :
  (if Js.truthy v then validate p v else negb (required p)) = validity p v.
Proof. destruct v as [[|c s]|]; reflexivity. Qed.

(** The rule reads only the validator and the required flag. *)
Lemma validity_ext p q v :
  validation p = validation q -> required p = required q ->
  validity p v = validity q v.
Proof. unfold validity. intros -> ->. reflexivity. Qed.

(** ** Validation firing *)

Section Firing.

Variables (p : Props) (s : State) (v : Js.text) (w : Instance).

(** C3.  A firing whose value differs from the one held in the ref leaves
    the whole instance as it was: the state with its four fields, the ref,
    the pending timers, and the list of callbacks invoked. *)
Theorem updateState_stale_is_discarded :
  v <> inputValue w ->
  updateState p s v w = w
  /\ state (updateState p s v w) = state w
  /\ calls (updateState p s v w) = calls w.
Proof.
  intros H. unfold updateState. rewrite (Js_eqb_neq _ _ H). auto.
Qed.

End Firing.

Lemma updateState_stale_is_discarded_witness :
  Some "a" <> inputValue (mount Sample.signup)
  /\ updateState Sample.signup (state (mount Sample.signup)) (Some "a")
       (mount Sample.signup) = mount Sample.signup.
Proof.
  assert (H : Some "a" <> inputValue (mount Sample.signup))
    by (simpl; discriminate).
  split; [exact H |].
  exact (proj1 (@updateState_stale_is_discarded Sample.signup
                  (state (mount Sample.signup)) (Some "a")
                  (mount Sample.signup) H)).
Defined.

(** A timer that fires is such a firing. *)
Lemma fire_stale tm w : arg tm <> inputValue w -> fire tm w = w.
Proof. intros H. unfold fire, updateState. now rewrite (Js_eqb_neq _ _ H). Qed.

Lemma fire_current tm w :
  arg tm = inputValue w ->
  fire tm w =
    setState {| value := arg tm; valid := validity (env_props tm) (arg tm);
                typing := false; focused := focused (env_state tm) |}
             (invoke (onValueChange (arg tm) (validity (env_props tm) (arg tm))) w).
Proof.
  intros H. unfold fire, updateState.
  rewrite H, Js_eqb_refl, guarded_validate_validity. reflexivity.
Qed.

(** ** Clear and focus *)

(** C7.  Clearing a read-only field changes nothing.  Clearing any other
    field empties the value (the field then shows the empty text) and leaves
    [valid], [typing] and [focused], and the rest of the instance, as they
    were; no validity is computed. *)
Theorem handleClear_frame (w : Instance) :
  (readOnly (props w) = true -> handle Clear w = w)
  /\ (readOnly (props w) = false ->
      handle Clear w =
        setState {| value := None; valid := valid (state w);
                    typing := typing (state w);
                    focused := focused (state w) |} w
      /\ Js.shown (value (state (handle Clear w))) = "").
Proof.
  unfold handle, handleClear.
  split; intros H; rewrite H; [reflexivity | split; reflexivity].
Qed.

Lemma handleClear_frame_witness :
  readOnly (props (mount (Sample.field "abc" true (1 # 4)))) = false
  /\ state (handle Clear (mount (Sample.field "abc" true (1 # 4))))
     = {| value := None; valid := true; typing := false; focused := false |}.
Proof.
  split; [reflexivity |].
  destruct (handleClear_frame (mount (Sample.field "abc" true (1 # 4))))
    as [_ H].
  destruct (H eq_refl) as [E _]. rewrite E. reflexivity.
Defined.

(** ** Mount *)

(** The effects of the mount revalidate the state of the first render. *)
Lemma mount_state p :
  state (mount p) =
    {| value := initialValue p; valid := validity p (initialValue p);
       typing := false; focused := false |}.
Proof. unfold mount. simpl. now rewrite validate_validity. Qed.

(** C9.  The state of the first render takes [valid] from the validator
    alone: with the initial value [""], not required, and a validator that
    wants three characters it has [valid = false].  The rule is applied only
    by the effects that run after that render. *)
Theorem initialState_ignores_required :
  let p := Sample.field "" false (1 # 4) in
  valid (initialState p) = false
  /\ state (firstRender p) =
       {| value := Some ""; valid := false; typing := false; focused := false |}
  /\ validity p (Some "") = true
  /\ valid (state (mount p)) = true.
Proof. repeat split. Qed.

(** ** New props *)

(** What an update does when the validator or the required flag changes:
    the effect on [[validation, required]] makes the last [setState] of the
    render, whether or not the effect on [[initialValue]] ran before it. *)
Lemma receiveProps_validation u w :
  validationChanged u (props w) = true ->
  receiveProps u w =
    {| props := updated u (props w);
       state := {| value := value (state w);
                   valid := validity (updated u (props w)) (value (state w));
                   typing := typing (state w);
                   focused := focused (state w) |};
       inputValue := if initialValueChanged u (props w)
                     then initialValue (updated u (props w))
                     else inputValue w;
       timers := timers w; calls := calls w; clock := clock w |}.
Proof.
  intros H. unfold receiveProps. rewrite H, <- validate_validity.
  destruct (initialValueChanged u (props w)); reflexivity.
Qed.

Section NewProps.

Variables (u : Update) (w : Instance).

(** C6.  When the validator or the required flag changes, the state keeps
    its value, [typing] and [focused], and [valid] becomes the new
    validator's answer for that value, or the negation of the new required
    flag if the value is empty.  This happens within the update: no timer
    is set and the clock does not move. *)
Theorem receiveProps_revalidates :
  validationChanged u (props w) = true ->
  state (receiveProps u w) =
    {| value := value (state w);
       valid := validity (updated u (props w)) (value (state w));
       typing := typing (state w);
       focused := focused (state w) |}
  /\ props (receiveProps u w) = updated u (props w)
  /\ timers (receiveProps u w) = timers w
  /\ calls (receiveProps u w) = calls w
  /\ clock (receiveProps u w) = clock w.
Proof.
  intros H. rewrite (receiveProps_validation u w H). repeat split.
Qed.

(** When only the initial value changes, the state takes the new value and
    the ref follows, and [valid] is computed from the value the state had
    before. *)
Lemma receiveProps_new_value :
  initialValueChanged u (props w) = true ->
  validationChanged u (props w) = false ->
  state (receiveProps u w) =
    {| value := initialValue (updated u (props w));
       valid := validity (updated u (props w)) (value (state w));
       typing := typing (state w);
       focused := focused (state w) |}
  /\ inputValue (receiveProps u w) = initialValue (updated u (props w)).
Proof.
  intros H1 H2. unfold receiveProps.
  rewrite H1, H2, <- validate_validity. split; reflexivity.
Qed.

(** Props that change neither dependency list leave the state alone. *)
Lemma receiveProps_same :
  initialValueChanged u (props w) = false ->
  validationChanged u (props w) = false ->
  receiveProps u w = setProps (updated u (props w)) w.
Proof. intros H1 H2. unfold receiveProps. now rewrite H1, H2. Qed.

End NewProps.

Lemma receiveProps_revalidates_witness :
  validationChanged (Sample.requiredTo false) (props (mount Sample.signup)) = true
  /\ state (receiveProps (Sample.requiredTo false) (mount Sample.signup)) =
       {| value := Some ""; valid := true; typing := false; focused := false |}.
Proof.
  split; [reflexivity |].
  destruct (@receiveProps_revalidates (Sample.requiredTo false)
              (mount Sample.signup) eq_refl) as [E _].
  rewrite E. reflexivity.
Defined.

(** C5.  A field showing "ab", invalid under a validator that wants three
    characters, receives the initial value "abcd".  The state takes the new
    value at once, without a timer, but [valid] stays [false]: it is the
    validity of "ab", where the rule gives [true] for "abcd". *)
Theorem new_value_keeps_old_validity :
  let p := Sample.field "ab" false (1 # 4) in
  let w := receiveProps (Sample.valueTo "abcd") (mount p) in
  state (mount p) =
    {| value := Some "ab"; valid := false; typing := false; focused := false |}
  /\ state w =
    {| value := Some "abcd"; valid := false; typing := false; focused := false |}
  /\ timers w = []
  /\ validity (props w) (value (state w)) = true.
Proof. repeat split. Qed.

(** ** Keystrokes *)

(** The two ways of [handleInput]. *)
Lemma handleInput_now p s text w :
  (0 ?= delay p) <> Lt ->
  handleInput p s text w =
    {| props := props w;
       state := {| value := Some text; valid := validity p (Some text);
                   typing := false; focused := focused s |};
       inputValue := Some text;
       timers := timers w;
       calls := calls w ++ started s
                  ++ [onValueChange (Some text) (validity p (Some text))];
       clock := clock w |}.
Proof.
  intros C. unfold handleInput, started.
  assert (E : forall a b : Instance,
             match 0 ?= delay p with Lt => a | _ => b end = b)
    by (intros a b; destruct (0 ?= delay p); congruence).
  rewrite E. clear E C.
  assert (U : forall a : Instance,
             inputValue a = Some text ->
             updateState p s (Some text) a =
               setState {| value := Some text;
                           valid := validity p (Some text);
                           typing := false; focused := focused s |}
                 (invoke (onValueChange (Some text)
                            (validity p (Some text))) a)).
  { intros a Ha. unfold updateState.
    rewrite Ha, Js_eqb_refl, guarded_validate_validity. reflexivity. }
  destruct (typing s); simpl negb; cbv iota; rewrite U by reflexivity;
    unfold setState, invoke, setCurrent; simpl;
    now rewrite <- ?app_assoc, ?app_nil_r.
Qed.

Lemma handleInput_later p s text w :
  (0 ?= delay p) = Lt ->
  handleInput p s text w =
    {| props := props w;
       state := {| value := Some text; valid := valid s; typing := true;
                   focused := focused s |};
       inputValue := Some text;
       timers := timers w ++
         [{| due := clock w + delay p * 1000; env_props := p;
             env_state := s; arg := Some text |}];
       calls := calls w ++ started s;
       clock := clock w |}.
Proof.
  intros C. unfold handleInput, started. rewrite C.
  destruct (typing s); unfold setTimeout, setState, invoke, setCurrent; simpl;
    now rewrite ?app_nil_r.
Qed.

Section Keystroke.

Variables (p : Props) (s : State) (text : string) (w : Instance).


End Keystroke.


(** ** Timers and time *)

Lemma pick_nil ts : pick ts = None -> ts = [].
Proof.
  destruct ts as [|t rest]; simpl; [reflexivity |].
  destruct (pick rest) as [[m r]|]; [destruct (Qle_bool _ _) |]; discriminate.
Qed.

(** [pick] takes one timer out of the list and keeps the rest in order. *)
Lemma pick_split ts : forall tm rest,
  pick ts = Some (tm, rest) ->
  exists l1 l2, ts = l1 ++ tm :: l2 /\ rest = l1 ++ l2.
Proof.
  induction ts as [|t ts IH]; simpl; intros tm rest H; [discriminate |].
  destruct (pick ts) as [[m r]|] eqn:P.
  - destruct (Qle_bool (due t) (due m));
      injection H as E1 E2; subst tm rest.
    + exists [], ts. split; reflexivity.
    + destruct (IH m r eq_refl) as (l1 & l2 & -> & ->).
      exists (t :: l1), l2. split; reflexivity.
  - injection H as E1 E2; subst tm rest. apply pick_nil in P. subst ts.
    exists [], []. split; reflexivity.
Qed.

(** The timer picked is due no later than those left. *)
Lemma pick_least ts : forall tm rest,
  pick ts = Some (tm, rest) -> Forall (fun x => due tm <= due x) rest.
Proof.
  induction ts as [|t ts IH]; simpl; intros tm rest H; [discriminate |].
  destruct (pick ts) as [[m r]|] eqn:P.
  - specialize (IH m r eq_refl).
    destruct (Qle_bool (due t) (due m)) eqn:L;
      injection H as E1 E2; subst tm rest.
    + apply Qle_bool_iff in L.
      destruct (pick_split _ _ _ P) as (l1 & l2 & -> & ->).
      apply Forall_app in IH. destruct IH as [I1 I2].
      apply Forall_app. split; [| constructor].
      * eapply Forall_impl; [| exact I1]. intros x Hx. simpl in Hx.
        now apply Qle_trans with (due m).
      * exact L.
      * eapply Forall_impl; [| exact I2]. intros x Hx. simpl in Hx.
        now apply Qle_trans with (due m).
    + constructor; [| exact IH].
      apply Qlt_le_weak, Qnot_le_lt. intros C.
      apply Qle_bool_iff in C. congruence.
  - injection H as E1 E2; subst tm rest. constructor.
Qed.

(** A firing touches neither the props, the ref, the timers nor the clock. *)
Lemma fire_frame tm w :
  props (fire tm w) = props w /\ inputValue (fire tm w) = inputValue w
  /\ timers (fire tm w) = timers w /\ clock (fire tm w) = clock w.
Proof.
  unfold fire, updateState.
  destruct (Js.eqb (arg tm) (inputValue w)); repeat split.
Qed.

Lemma commits_app a b : commits (a ++ b) = commits a ++ commits b.
Proof.
  induction a as [|c a IH]; simpl; [reflexivity |].
  destruct c; simpl; now rewrite IH.
Qed.

Lemma commits_started s : commits (started s) = [].
Proof. unfold started. now destruct (typing s). Qed.

(** Every round of [elapse] takes a timer away and none sets a new one, so
    fuel beyond the number of pending timers is never used: [advance] and
    [settle] run [elapse] to its end. *)
Lemma elapse_fuel d : forall n m w,
  (List.length (timers w) <= n)%nat -> (List.length (timers w) <= m)%nat ->
  elapse n d w = elapse m d w.
Proof.
  induction n as [|n IH]; intros m w Hn Hm.
  - destruct (timers w) eqn:T; [| simpl in Hn; lia].
    destruct m; simpl; [reflexivity |]. now rewrite T.
  - destruct m as [|m].
    + destruct (timers w) eqn:T; [| simpl in Hm; lia].
      simpl. now rewrite T.
    + cbn [elapse]. destruct (pick (timers w)) as [[tm rest]|] eqn:P; [| reflexivity].
      destruct (within d (due tm)); [| reflexivity].
      destruct (pick_split _ _ _ P) as (l1 & l2 & E & ->).
      rewrite E in Hn, Hm. rewrite length_app in Hn, Hm. simpl in Hn, Hm.
      apply IH; destruct (fire_frame tm
          (setClock (due tm) (setTimers (l1 ++ l2) w))) as (_ & _ & -> & _);
        simpl; rewrite length_app; lia.
Qed.

(** After [advance t], no pending timer is due at [t] or before. *)
Lemma elapse_done t : forall n w,
  (List.length (timers w) <= n)%nat ->
  Forall (fun x => ~ due x <= t) (timers (elapse n (Some t) w)).
Proof.
  induction n as [|n IH]; intros w Hn.
  - destruct (timers w) eqn:T; [| simpl in Hn; lia]. simpl. now rewrite T.
  - cbn [elapse]. destruct (pick (timers w)) as [[tm rest]|] eqn:P.
    + destruct (within (Some t) (due tm)) eqn:W.
      * destruct (pick_split _ _ _ P) as (l1 & l2 & E & ->).
        rewrite E, length_app in Hn. simpl in Hn.
        apply IH.
        destruct (fire_frame tm
          (setClock (due tm) (setTimers (l1 ++ l2) w))) as (_ & _ & -> & _).
        simpl. rewrite length_app. lia.
      * pose proof (pick_least _ _ _ P) as L.
        destruct (pick_split _ _ _ P) as (l1 & l2 & E & ->).
        assert (N : ~ due tm <= t).
        { intros C. apply Qle_bool_iff in C. simpl in W. congruence. }
        rewrite E. apply Forall_app in L. destruct L as [L1 L2].
        apply Forall_app. split; [| constructor; [exact N |]].
        -- eapply Forall_impl; [| exact L1]. intros x Hx C. simpl in Hx.
           apply N. now apply Qle_trans with (due x).
        -- eapply Forall_impl; [| exact L2]. intros x Hx C. simpl in Hx.
           apply N. now apply Qle_trans with (due x).
    + apply pick_nil in P. rewrite P. constructor.
Qed.

(** ** Sessions stay within the reachable instances *)

Section Reach.

Variables (ok : Instance -> Event -> Prop) (p : Props).

Lemma elapse_reachable d : forall n w,
  reachable ok p w -> reachable ok p (elapse n d w).
Proof.
  induction n as [|n IH]; intros w R; cbn [elapse]; [exact R |].
  destruct (pick (timers w)) as [[tm rest]|] eqn:P; [| exact R].
  destruct (within d (due tm)); [| exact R].
  destruct (pick_split _ _ _ P) as (l1 & l2 & E & ->).
  apply IH.
  apply (@reach_fire ok p (setClock (due tm) w) l1 tm l2).
  - now apply reach_tick.
  - exact E.
Qed.

Lemma advance_reachable t w :
  reachable ok p w -> reachable ok p (advance t w).
Proof. intros R. apply reach_tick. now apply elapse_reachable. Qed.

Lemma settle_reachable w : reachable ok p w -> reachable ok p (settle w).
Proof. apply elapse_reachable. Qed.

Lemma run_reachable evs : forall w,
  Forall (fun te => forall x, ok x (snd te)) evs ->
  reachable ok p w -> reachable ok p (run evs w).
Proof.
  induction evs as [|[t e] evs IH]; intros w A R; simpl; [exact R |].
  inversion A as [|? ? A1 A2]; subst.
  apply IH; [exact A2 |].
  apply reach_event; [now apply advance_reachable | apply A1].
Qed.

End Reach.

(** ** Validity of the reachable states *)

Lemma agrees_same p q tm :
  validation q = validation p -> required q = required p ->
  agrees p tm -> agrees q tm.
Proof. unfold agrees. intros -> ->. trivial. Qed.

Lemma Inv_mount p : Inv (mount p).
Proof.
  split; [| constructor].
  intros _ _. rewrite mount_state. reflexivity.
Qed.

Lemma Inv_tick t w : Inv w -> Inv (setClock t w).
Proof. intros H. exact H. Qed.

Lemma Inv_fire w l1 tm l2 :
  Inv w -> timers w = l1 ++ tm :: l2 ->
  Inv (fire tm (setTimers (l1 ++ l2) w)).
Proof.
  intros [V A] E. rewrite E in A.
  apply Forall_app in A. destruct A as [A1 A2].
  inversion A2 as [|? ? [Hv Hr] A3]; subst.
  assert (A' : Forall (agrees (props w)) (l1 ++ l2))
    by (apply Forall_app; split; assumption).
  destruct (Js_eqb_spec (arg tm) (inputValue w)) as [C|C].
  - rewrite fire_current by exact C. split; [| exact A'].
    intros _ _. simpl. now apply validity_ext.
  - rewrite fire_stale by exact C. split; [exact V | exact A'].
Qed.

Lemma Inv_handle w e : Inv w -> quiet w e -> Inv (handle e w).
Proof.
  intros [V A] Q. destruct e as [text| | | |u]; simpl.
  - destruct (0 ?= delay (props w)) eqn:C.
    + rewrite handleInput_now by congruence. split; [| exact A].
      intros _ _. reflexivity.
    + rewrite handleInput_later by exact C. split.
      * intros T. discriminate T.
      * simpl. apply Forall_app. split; [exact A |].
        constructor; [split; reflexivity | constructor].
    + rewrite handleInput_now by congruence. split; [| exact A].
      intros _ _. reflexivity.
  - split; [exact V | exact A].
  - split; [exact V | exact A].
  - unfold handleClear. destruct (readOnly (props w)); [split; assumption |].
    split; [| exact A]. intros _ N. now elim N.
  - destruct Q as [Q1 Q2].
    destruct (validationChanged u (props w)) eqn:C.
    + rewrite receiveProps_validation by exact C.
      split; [intros _ _; reflexivity |].
      simpl. rewrite (Q2 eq_refl). constructor.
    + rewrite receiveProps_same by assumption.
      unfold validationChanged in C. apply orb_false_elim in C.
      destruct C as [C1 C2].
      assert (Ev : validation (updated u (props w)) = validation (props w))
        by (simpl; destruct (newValidation u); [discriminate | reflexivity]).
      assert (Er : required (updated u (props w)) = required (props w))
        by (apply negb_false_iff, eqb_prop in C2; exact C2).
      split.
      * intros T N. simpl in *. rewrite (V T N). now apply validity_ext.
      * simpl. eapply Forall_impl; [| exact A].
        intros tm. now apply agrees_same.
Qed.

Lemma reachable_Inv p w : reachable quiet p w -> Inv w.
Proof.
  induction 1 as [|w e R IH Q|w l1 tm l2 R IH E|w t R IH].
  - apply Inv_mount.
  - now apply Inv_handle.
  - now apply Inv_fire.
  - now apply Inv_tick.
Qed.

(** Events that start no validation pass hand [valid] on. *)
Lemma passive_keeps_valid w e :
  passive w e -> valid (state (handle e w)) = valid (state w).
Proof.
  destruct e as [text| | | |u]; simpl; intros H; try reflexivity.
  - rewrite handleInput_later by (apply Qlt_alt; exact H). reflexivity.
  - unfold handleClear. now destruct (readOnly (props w)).
  - contradiction.
Qed.

(** C4, as stated, fails: a required field mounted with "abc" is valid;
    after a clear its value is empty and [valid] is still [true], where the
    rule gives [false]. *)
Lemma valid_is_not_always_the_rule :
  ~ (forall p w, reachable anyEvent p w ->
       valid (state w) = validity (props w) (value (state w))).
Proof.
  intros H.
  specialize (H (Sample.field "abc" true (1 # 4))
                (handle Clear (mount (Sample.field "abc" true (1 # 4))))).
  discriminate H. apply reach_event; [apply reach_mount | exact I].
Qed.

(** C4, amended.  Take the instances reached from the mount (its effects
    run) by keystrokes, focus, blur, clear, timer firings in any order, and
    new props that leave the initial value alone and change the validator or
    the required flag only while no timer is pending.  In each of them, when
    [typing] is false and the value has not been cleared, [valid] is the
    validator's answer for the value if it is non-empty and [!required] if
    it is empty.  A keystroke with a positive delay, a focus, a blur and a
    clear leave [valid] as it was. *)
Theorem valid_is_the_rule_when_settled (p : Props) (w : Instance) :
  reachable quiet p w ->
  (typing (state w) = false -> value (state w) <> None ->
   valid (state w) = validity (props w) (value (state w)))
  /\ (forall e, passive w e -> valid (state (handle e w)) = valid (state w)).
Proof.
  intros R. split.
  - exact (proj1 (reachable_Inv p w R)).
  - intros e. apply passive_keeps_valid.
Qed.

Lemma valid_is_the_rule_when_settled_witness :
  reachable quiet (Sample.field "" true 0)
    (handle (Change "abc") (mount (Sample.field "" true 0)))
  /\ typing (state (handle (Change "abc") (mount (Sample.field "" true 0))))
     = false
  /\ value (state (handle (Change "abc") (mount (Sample.field "" true 0))))
     <> None
  /\ valid (state (handle (Change "abc") (mount (Sample.field "" true 0))))
     = true.
Proof.
  assert (R : reachable quiet (Sample.field "" true 0)
                (handle (Change "abc") (mount (Sample.field "" true 0))))
    by (apply reach_event; [apply reach_mount | exact I]).
  assert (T : typing (state (handle (Change "abc")
                (mount (Sample.field "" true 0)))) = false) by reflexivity.
  assert (N : value (state (handle (Change "abc")
                (mount (Sample.field "" true 0)))) <> None)
    by (simpl; discriminate).
  split; [exact R | split; [exact T | split; [exact N |]]].
  rewrite (proj1 (valid_is_the_rule_when_settled _ _ R) T N). reflexivity.
Defined.

(** ** Bursts of keystrokes *)

(** Timers that fire while none of those due is current change nothing but
    the list of pending timers and the clock. *)
Lemma elapse_stale t : forall n w,
  (forall tm, In tm (timers w) -> arg tm = inputValue w -> ~ due tm <= t) ->
  props (elapse n (Some t) w) = props w
  /\ state (elapse n (Some t) w) = state w
  /\ inputValue (elapse n (Some t) w) = inputValue w
  /\ calls (elapse n (Some t) w) = calls w
  /\ incl (timers (elapse n (Some t) w)) (timers w)
  /\ filter (current w) (timers (elapse n (Some t) w))
     = filter (current w) (timers w).
Proof.
  induction n as [|n IH]; intros w H; cbn [elapse].
  - repeat split. apply incl_refl.
  - destruct (pick (timers w)) as [[tm rest]|] eqn:P;
      [| repeat split; apply incl_refl].
    destruct (within (Some t) (due tm)) eqn:W;
      [| repeat split; apply incl_refl].
    destruct (pick_split _ _ _ P) as (l1 & l2 & E & ->).
    assert (M : In tm (timers w)) by (rewrite E; apply in_elt).
    assert (S : arg tm <> inputValue w).
    { intros C. apply (H tm M C). now apply Qle_bool_iff. }
    rewrite fire_stale by exact S.
    assert (Sub : incl (l1 ++ l2) (timers w)).
    { rewrite E. intros x Hx. apply in_app_or in Hx. apply in_or_app.
      destruct Hx; [left | right; right]; assumption. }
    destruct (IH (setClock (due tm) (setTimers (l1 ++ l2) w)))
      as (I1 & I2 & I3 & I4 & I5 & I6).
    { intros x Hx. apply H. now apply Sub. }
    repeat split; try assumption.
    + intros x Hx. apply Sub. now apply I5.
    + change (current (setClock (due tm) (setTimers (l1 ++ l2) w)))
        with (current w) in I6.
      rewrite I6. simpl timers. rewrite E, !filter_app. simpl.
      assert (F : current w tm = false)
        by (unfold current; now apply Js_eqb_neq).
      now rewrite F.
Qed.

(** When all pending timers fire, each one that is current commits the text
    of the ref: as many commits as there are current timers. *)
Lemma settle_commits p : forall n w,
  (List.length (timers w) <= n)%nat ->
  Forall (fun tm => env_props tm = p) (timers w) ->
  commits (calls (elapse n None w)) =
    commits (calls w)
      ++ repeat (inputValue w, validity p (inputValue w))
           (List.length (filter (current w) (timers w))).
Proof.
  induction n as [|n IH]; intros w L A.
  - destruct (timers w); [| simpl in L; lia]. simpl. now rewrite app_nil_r.
  - cbn [elapse]. destruct (pick (timers w)) as [[tm rest]|] eqn:P.
    + cbn [within].
      destruct (pick_split _ _ _ P) as (l1 & l2 & E & ->).
      rewrite E in L, A. rewrite length_app in L. simpl in L.
      apply Forall_app in A. destruct A as [A1 A2].
      apply Forall_cons_iff in A2. destruct A2 as [Hp A3].
      assert (A' : Forall (fun x => env_props x = p) (l1 ++ l2))
        by (apply Forall_app; split; assumption).
      rewrite E, !filter_app. cbn [filter].
      destruct (Js_eqb_spec (arg tm) (inputValue w)) as [C|C].
      * assert (F : current w tm = true)
          by (unfold current; rewrite C; apply Js_eqb_refl).
        rewrite fire_current by exact C.
        rewrite IH; [| simpl; rewrite length_app; lia | exact A'].
        cbn [calls setState invoke inputValue timers setClock setTimers].
        change (current (setState _ _)) with (current w).
        rewrite F, Hp, C, commits_app, filter_app, !length_app. simpl.
        rewrite <- app_assoc, Nat.add_succ_r. reflexivity.
      * assert (F : current w tm = false)
          by (unfold current; now apply Js_eqb_neq).
        rewrite fire_stale by exact C.
        rewrite IH; [| simpl; rewrite length_app; lia | exact A'].
        cbn [calls inputValue timers setClock setTimers].
        change (current (setClock _ _)) with (current w).
        now rewrite F, filter_app.
    + apply pick_nil in P. rewrite P. simpl. now rewrite app_nil_r.
Qed.

Lemma filter_none (f : Timer -> bool) l :
  (forall x, In x l -> f x = false) -> filter f l = [].
Proof.
  induction l as [|x l IH]; intros H; simpl; [reflexivity |].
  rewrite (H x (or_introl eq_refl)). apply IH.
  intros y Hy. apply H. now right.
Qed.

Section Burst.

Variable p : Props.
Hypothesis positive : (0 ?= delay p) = Lt.

(** A keystroke on an instance that awaits no timer opens a burst. *)
Lemma burst_first w t v :
  props w = p -> timers w = [] ->
  burstInv p t v [] (handle (Change v) (advance t w))
  /\ commits (calls (handle (Change v) (advance t w))) = commits (calls w).
Proof.
  intros Hp Ht. unfold advance. rewrite Ht. cbn [List.length elapse handle].
  cbn [props setClock]. rewrite Hp, handleInput_later by exact positive.
  cbn [calls timers clock inputValue state setClock]. rewrite Ht.
  split.
  - repeat split; cbn [props inputValue clock timers].
    + exact Hp.
    + repeat constructor.
    + simpl. unfold current. simpl. now rewrite String.eqb_refl.
  - now rewrite commits_app, commits_started, app_nil_r.
Qed.

(** The next keystroke of the burst, with a text not typed before. *)
Lemma burst_step w t v seen t' v' :
  burstInv p t v seen w ->
  t' < t + delay p * 1000 -> ~ In v' (v :: seen) ->
  burstInv p t' v' (v :: seen) (handle (Change v') (advance t' w))
  /\ commits (calls (handle (Change v') (advance t' w))) = commits (calls w).
Proof.
  intros (Hp & Hr & Hc & HF & Hn) Lt' Fresh.
  rewrite Forall_forall in HF.
  destruct (elapse_stale t' (List.length (timers w)) w)
    as (E1 & E2 & E3 & E4 & E5 & E6).
  { intros tm M C. destruct (HF tm M) as (_ & D & _).
    rewrite D by congruence. now apply Qlt_not_le. }
  unfold advance. cbn [handle props state setClock].
  rewrite E1, Hp, handleInput_later by exact positive.
  cbn [calls timers clock inputValue state setClock]. rewrite E4.
  assert (Old : forall tm,
             In tm (timers (elapse (List.length (timers w)) (Some t') w)) ->
             arg tm <> Some v').
  { intros tm M C. destruct (HF tm (E5 tm M)) as (_ & _ & I).
    rewrite C in I. apply in_map_iff in I. destruct I as (x & Ex & Ix).
    apply Fresh. congruence. }
  split.
  - repeat split; cbn [props inputValue clock timers setClock].
    + now rewrite E1.
    + apply Forall_app. split; [| repeat constructor].
      apply Forall_forall. intros tm M.
      destruct (HF tm (E5 tm M)) as (P1 & _ & P3).
      repeat split.
      * exact P1.
      * intros C. now elim (Old tm M).
      * now right.
    + rewrite filter_app, filter_none.
      * simpl. unfold current. simpl. now rewrite String.eqb_refl.
      * intros tm M. unfold current. apply Js_eqb_neq. now apply Old.
  - now rewrite commits_app, commits_started, app_nil_r.
Qed.

(** A burst commits nothing while it lasts. *)
Lemma burst_run : forall rest w t v seen,
  burstInv p t v seen w ->
  paced (delay p * 1000) t rest ->
  NoDup (map snd rest) ->
  (forall x, In x (map snd rest) -> ~ In x (v :: seen)) ->
  commits (calls (run (keystrokes rest) w)) = commits (calls w)
  /\ exists t' seen',
       burstInv p t' (last (map snd rest) v) seen' (run (keystrokes rest) w).
Proof.
  induction rest as [|[t' v'] rest IH]; intros w t v seen B Pc N F.
  - simpl. split; [reflexivity |]. now exists t, seen.
  - destruct Pc as (_ & L & Pc). simpl in N. apply NoDup_cons_iff in N.
    destruct N as [N1 N2].
    destruct (burst_step w t v seen t' v' B L) as [B' C'].
    { apply F. now left. }
    destruct (IH _ _ _ _ B' Pc N2) as [C'' (t'' & seen'' & B'')].
    { intros x Hx [<- | Hs]; [contradiction |].
      apply (F x); [now right | exact Hs]. }
    split.
    + change (run (keystrokes ((t', v') :: rest)) w)
        with (run (keystrokes rest) (handle (Change v') (advance t' w))).
      now rewrite C''.
    + exists t'', seen''.
      change (run (keystrokes ((t', v') :: rest)) w)
        with (run (keystrokes rest) (handle (Change v') (advance t' w))).
      replace (last (map snd ((t', v') :: rest)) v)
        with (last (map snd rest) v'); [exact B'' |].
      simpl. destruct (map snd rest) as [|y l] eqn:M; [reflexivity |].
      clear. revert y. induction l as [|z l IHl]; intros y; [reflexivity |].
      simpl in *. apply IHl.
Qed.

End Burst.

(** For every burst of keystrokes with pairwise different texts, each less
    than the delay after the one before, nothing is committed during the
    burst, and the timers that fire afterwards commit once: the text of the
    last keystroke, with its validity. *)
Lemma distinct_burst_commits_last_only p w t v rest :
  0 < delay p -> props w = p -> timers w = [] ->
  paced (delay p * 1000) t rest ->
  NoDup (v :: map snd rest) ->
  let w' := run (keystrokes ((t, v) :: rest)) w in
  let final := Some (last (map snd rest) v) in
  commits (calls w') = commits (calls w)
  /\ commits (calls (settle w')) =
       commits (calls w) ++ [(final, validity p final)].
Proof.
  intros D Hp Ht Pc N. apply Qlt_alt in D.
  apply NoDup_cons_iff in N. destruct N as [N1 N2].
  destruct (burst_first p D w t v Hp Ht) as [B C].
  destruct (burst_run p D rest _ _ _ _ B Pc N2) as [C' (t' & seen' & B')].
  { intros x Hx [<- | []]. contradiction. }
  cbn zeta. cbn [keystrokes map run fst snd].
  change (map (fun k => (fst k, Change (snd k))) rest) with (keystrokes rest).
  split; [congruence |].
  destruct B' as (Bp & Br & _ & BF & Bn).
  unfold settle.
  rewrite (settle_commits p); [| lia |].
  - rewrite Bn, Br, C', C. reflexivity.
  - eapply Forall_impl; [| exact BF]. intros tm H. apply H.
Qed.

Example distinct_burst_sample :
  commits (calls (settle (run Sample.burst (mount Sample.signup)))) =
    [(Some "abc", true)].
Proof.
  apply (distinct_burst_commits_last_only Sample.signup (mount Sample.signup)
           0 "a" [(100, "ab"); (200, "abc")]).
  - reflexivity.
  - reflexivity.
  - reflexivity.
  - simpl. unfold Qle, Qlt. simpl. lia.
  - repeat constructor; simpl; intuition discriminate.
Qed.

(** The scenario of the specification: "a", "ab", "abc" 100 ms apart with a
    delay of 0.25 s.  Nothing is committed until the last timer fires, and
    then value-changed is invoked once, with "abc" and [true]. *)
Lemma burst_commits_once :
  let w := run Sample.burst (mount Sample.signup) in
  commits (calls w) = []
  /\ commits (calls (advance 449 w)) = []
  /\ calls (advance 450 w) = [onInputStart; onValueChange (Some "abc") true]
  /\ calls (settle w) = [onInputStart; onValueChange (Some "abc") true]
  /\ state (settle w) =
       {| value := Some "abc"; valid := true; typing := false;
          focused := false |}.
Proof. vm_compute. repeat split. Qed.

(** C2.  Keystrokes 100 ms apart with a delay of 0.25 s: "a", "ab", back to
    "a", again "ab".  The timer of the first "a" fires at 250 ms, when the
    ref holds the "a" typed at 200 ms, and commits "a" before the last
    keystroke at 300 ms; the timer of the first "ab" then commits "ab" at
    350 ms, and the timer of the last keystroke commits it again.
    Value-changed is invoked three times. *)
Theorem retyped_text_commits_early :
  let w3 := run (firstn 3 Sample.retyped) (mount Sample.signup) in
  let w4 := run Sample.retyped (mount Sample.signup) in
  paced (delay Sample.signup * 1000) 0
    [(0, "a"); (100, "ab"); (200, "a"); (300, "ab")]
  /\ Sample.retyped = keystrokes [(0, "a"); (100, "ab"); (200, "a"); (300, "ab")]
  /\ commits (calls (advance 250 w3)) = [(Some "a", false)]
  /\ commits (calls w4) = [(Some "a", false)]
  /\ commits (calls (settle w4)) =
       [(Some "a", false); (Some "ab", false); (Some "ab", false)].
Proof.
  cbv zeta. split; [| repeat split].
  simpl. unfold Qle, Qlt. simpl. lia.
Qed.

(** * Further properties *)

(** ** What the field shows *)

(** X6.  Whatever the delay, the state takes the typed text in the event of
    the keystroke, so the field shows what was typed before any validation
    has run. *)
Theorem keystroke_is_shown (w : Instance) (text : string) :
  value (state (handle (Change text) w)) = Some text
  /\ Js.shown (value (state (handle (Change text) w))) = text
  /\ inputValue (handle (Change text) w) = Some text.
Proof.
  cbn [handle].
  destruct (0 ?= delay (props w)) eqn:C;
    [rewrite handleInput_now by congruence
    | rewrite handleInput_later by exact C
    | rewrite handleInput_now by congruence];
    repeat split; now destruct text.
Qed.

(** X7.  The clear button is rendered only for a field that is not
    read-only and shows some text.  Tapping it then empties the value, after
    which the button is no longer rendered; [valid] and the ref keep what
    they had, and no callback is invoked. *)
Theorem clear_button_disappears (clearable : bool) (w : Instance) :
  clearShown clearable (props w) (state w) = true ->
  readOnly (props w) = false
  /\ Js.truthy (value (state w)) = true
  /\ value (state (handle Clear w)) = None
  /\ clearShown clearable (props (handle Clear w)) (state (handle Clear w))
     = false
  /\ valid (state (handle Clear w)) = valid (state w)
  /\ inputValue (handle Clear w) = inputValue w
  /\ calls (handle Clear w) = calls w.
Proof.
  unfold clearShown. intros H.
  apply andb_prop in H. destruct H as [H R].
  apply andb_prop in H. destruct H as [_ T].
  apply negb_true_iff in R.
  cbn [handle]. unfold handleClear. rewrite R. cbn.
  repeat split; try assumption. now rewrite andb_false_r.
Qed.

Lemma clear_button_disappears_witness :
  clearShown true (props (mount (Sample.field "abc" true (1 # 4))))
    (state (mount (Sample.field "abc" true (1 # 4)))) = true
  /\ clearShown true
       (props (handle Clear (mount (Sample.field "abc" true (1 # 4)))))
       (state (handle Clear (mount (Sample.field "abc" true (1 # 4)))))
     = false.
Proof.
  split; [reflexivity |].
  exact (proj1 (proj2 (proj2 (proj2
    (clear_button_disappears true (mount (Sample.field "abc" true (1 # 4)))
       eq_refl))))).
Defined.

(** ** Events between a keystroke and its timer

    The timer of a keystroke calls [updateState] of the render in which the
    key was pressed, and so spreads the state of that render. *)

Lemma settle_single w tm :
  timers w = [tm] ->
  settle w = fire tm (setClock (due tm) (setTimers [] w)).
Proof. intros E. unfold settle. rewrite E. cbn. now rewrite E. Qed.

Section BeforeTheTimer.

Variables (w : Instance) (text : string).
Hypothesis deferred : 0 < delay (props w).
Hypothesis idle : timers w = [].

(** X4.  A focus or a blur that comes between a keystroke and the firing of
    its timer is undone by the firing: the commit sets [focused] to what it
    was when the key was pressed. *)
Theorem late_commit_resets_focus (f : bool) :
  focused (state (handle (if f then Focus else Blur)
                    (handle (Change text) w))) = f
  /\ state (settle (handle (if f then Focus else Blur)
                      (handle (Change text) w))) =
       {| value := Some text; valid := validity (props w) (Some text);
          typing := false; focused := focused (state w) |}.
Proof.
  assert (C : (0 ?= delay (props w)) = Lt) by (apply Qlt_alt; exact deferred).
  cbn [handle]. rewrite (handleInput_later _ _ _ _ C), idle.
  destruct f; (split; [reflexivity |]);
    (erewrite settle_single by reflexivity);
    (rewrite fire_current by reflexivity); reflexivity.
Qed.

(** X5.  A clear that comes between a keystroke and the firing of its timer
    is undone by the firing: the ref still holds the typed text, so the
    timer commits it and the text is back in the field. *)
Theorem late_commit_undoes_clear :
  readOnly (props w) = false ->
  value (state (handle Clear (handle (Change text) w))) = None
  /\ state (settle (handle Clear (handle (Change text) w))) =
       {| value := Some text; valid := validity (props w) (Some text);
          typing := false; focused := focused (state w) |}
  /\ commits (calls (settle (handle Clear (handle (Change text) w)))) =
       commits (calls w) ++ [(Some text, validity (props w) (Some text))].
Proof.
  intros R.
  assert (C : (0 ?= delay (props w)) = Lt) by (apply Qlt_alt; exact deferred).
  cbn [handle]. rewrite (handleInput_later _ _ _ _ C), idle.
  unfold handleClear. cbn [props]. rewrite R.
  split; [reflexivity |].
  erewrite settle_single by reflexivity.
  rewrite fire_current by reflexivity.
  split; [reflexivity |]. cbn.
  now rewrite !commits_app, commits_started, app_nil_r.
Qed.

(** X15.  A blur (or focus) while the timer of a keystroke is pending
    reports the typed text with the validity the state had before the
    keystroke: the text has not been validated yet. *)
Theorem blur_reports_unvalidated_text (f : bool) :
  calls (handle (if f then Focus else Blur) (handle (Change text) w)) =
    calls w ++ started (state w)
      ++ [(if f then onFocus else onBlur) (Some text) (valid (state w))].
Proof.
  assert (C : (0 ?= delay (props w)) = Lt) by (apply Qlt_alt; exact deferred).
  cbn [handle]. rewrite (handleInput_later _ _ _ _ C).
  destruct f; cbn; now rewrite <- app_assoc.
Qed.

End BeforeTheTimer.

Lemma late_commit_resets_focus_witness :
  0 < delay (props (handle Focus (mount Sample.signup)))
  /\ timers (handle Focus (mount Sample.signup)) = []
  /\ focused (state (settle (handle Blur
       (handle (Change "abc") (handle Focus (mount Sample.signup)))))) = true.
Proof.
  assert (D : 0 < delay (props (handle Focus (mount Sample.signup))))
    by reflexivity.
  split; [exact D | split; [reflexivity |]].
  rewrite (proj2 (late_commit_resets_focus
                    (handle Focus (mount Sample.signup)) "abc" D eq_refl false)).
  reflexivity.
Defined.

Lemma late_commit_undoes_clear_witness :
  0 < delay (props (mount Sample.signup))
  /\ timers (mount Sample.signup) = []
  /\ readOnly (props (mount Sample.signup)) = false
  /\ value (state (settle (handle Clear
       (handle (Change "abc") (mount Sample.signup))))) = Some "abc".
Proof.
  assert (D : 0 < delay (props (mount Sample.signup))) by reflexivity.
  split; [exact D | split; [reflexivity | split; [reflexivity |]]].
  rewrite (proj1 (proj2 (late_commit_undoes_clear
                    (mount Sample.signup) "abc" D eq_refl eq_refl))).
  reflexivity.
Defined.

Lemma blur_reports_unvalidated_text_witness :
  0 < delay (props (mount (Sample.field "abc" true (1 # 4))))
  /\ calls (handle Blur (handle (Change "ab")
       (mount (Sample.field "abc" true (1 # 4))))) =
     [onInputStart; onBlur (Some "ab") true].
Proof.
  assert (D : 0 < delay (props (mount (Sample.field "abc" true (1 # 4)))))
    by reflexivity.
  split; [exact D |].
  rewrite (blur_reports_unvalidated_text
             (mount (Sample.field "abc" true (1 # 4))) "ab" D false).
  reflexivity.
Defined.

(** ** New props, further *)

(** X10.  New props that change the initial value together with the
    validator or the required flag run both effects; the second [setState]
    replaces the first, so the state keeps the value it had, validated under
    the new props, while the ref takes the new initial value. *)
Theorem both_effects_keep_old_value (u : Update) (w : Instance) :
  initialValueChanged u (props w) = true ->
  validationChanged u (props w) = true ->
  value (state (receiveProps u w)) = value (state w)
  /\ valid (state (receiveProps u w)) =
       validity (updated u (props w)) (value (state w))
  /\ inputValue (receiveProps u w) = initialValue (updated u (props w))
  /\ initialValue (props (receiveProps u w)) <> initialValue (props w).
Proof.
  intros H1 H2. rewrite (receiveProps_validation u w H2), H1.
  repeat split. cbn [props].
  unfold initialValueChanged in H1. apply negb_true_iff in H1.
  intros E. rewrite E, Js_eqb_refl in H1. discriminate.
Qed.

Lemma both_effects_keep_old_value_witness :
  let u := {| newValue := Some (Some "abcd"); newRequired := Some false;
              newReadOnly := None; newValidation := None;
              newDelay := None |} in
  let w := mount (Sample.field "ab" true (1 # 4)) in
  initialValueChanged u (props w) = true
  /\ validationChanged u (props w) = true
  /\ value (state (receiveProps u w)) = Some "ab"
  /\ inputValue (receiveProps u w) = Some "abcd".
Proof.
  cbv zeta. split; [reflexivity | split; [reflexivity |]].
  pose proof (both_effects_keep_old_value
    {| newValue := Some (Some "abcd"); newRequired := Some false;
       newReadOnly := None; newValidation := None; newDelay := None |}
    (mount (Sample.field "ab" true (1 # 4))) eq_refl eq_refl)
    as (E1 & _ & E3 & _).
  rewrite E1, E3. split; reflexivity.
Defined.



(** ** What the user's events preserve *)

Lemma commits_snoc cs c :
  commits (cs ++ [c]) =
    commits cs ++ match c with onValueChange v ok => [(v, ok)] | _ => [] end.
Proof. rewrite commits_app. now destruct c. Qed.

(** Without new props, the instance and its timers stay under the props of
    the mount, and every notification is honest. *)
Lemma userEvent_under_honest p w :
  reachable userEvent p w -> under p w /\ honest p w.
Proof.
  induction 1 as [|w e R [[Hp HF] Hh] Q|w l1 tm l2 R [[Hp HF] Hh] E
                  |w t R IH].
  - split; [split; [reflexivity | constructor] | constructor].
  - destruct e as [text| | | |u]; cbn [handle]; try contradiction.
    + destruct (0 ?= delay (props w)) eqn:C;
        [rewrite handleInput_now by congruence
        | rewrite handleInput_later by exact C
        | rewrite handleInput_now by congruence];
        unfold under, honest; cbn [props timers calls];
        rewrite ?app_assoc, ?commits_snoc, ?commits_app, ?commits_started,
          ?app_nil_r;
        (split; [split; [exact Hp |] |]); try assumption.
      * apply Forall_app. split; [exact Hh |]. constructor; [| constructor].
        cbn. now rewrite Hp.
      * apply Forall_app. split; [exact HF |]. now repeat constructor.
      * apply Forall_app. split; [exact Hh |]. constructor; [| constructor].
        cbn. now rewrite Hp.
    + unfold under, honest. cbn. rewrite commits_snoc, app_nil_r. tauto.
    + unfold under, honest. cbn. rewrite commits_snoc, app_nil_r. tauto.
    + unfold handleClear. destruct (readOnly (props w)); now repeat split.
  - rewrite E in HF. apply Forall_app in HF. destruct HF as [F1 F2].
    apply Forall_cons_iff in F2. destruct F2 as [Ft F2].
    assert (F' : Forall (fun x => env_props x = p) (l1 ++ l2))
      by (apply Forall_app; split; assumption).
    destruct (Js_eqb_spec (arg tm) (inputValue w)) as [C|C].
    + rewrite fire_current by exact C.
      unfold under, honest. cbn [props timers calls setState invoke setTimers].
      rewrite commits_snoc.
      split; [split; assumption |].
      apply Forall_app. split; [exact Hh |]. constructor; [| constructor].
      cbn. now rewrite Ft.
    + rewrite fire_stale by exact C. now repeat split.
  - exact IH.
Qed.

(** X9.  As long as the props stay those of the mount, every invocation of
    the value-changed callback, from a keystroke or from a timer, carries the
    validity of the value it carries: the validator's answer for a non-empty
    value, [!required] for an empty one. *)
Theorem notifications_are_honest (p : Props) (w : Instance) :
  reachable userEvent p w ->
  forall v ok, In (v, ok) (commits (calls w)) -> ok = validity p v.
Proof.
  intros R v ok M.
  destruct (userEvent_under_honest p w R) as [_ H].
  unfold honest in H. rewrite Forall_forall in H. exact (H (v, ok) M).
Qed.

Lemma notifications_are_honest_witness :
  reachable userEvent (Sample.field "" true 0)
    (handle (Change "ab") (mount (Sample.field "" true 0)))
  /\ In (Some "ab", false)
       (commits (calls (handle (Change "ab") (mount (Sample.field "" true 0)))))
  /\ false = validity (Sample.field "" true 0) (Some "ab").
Proof.
  assert (R : reachable userEvent (Sample.field "" true 0)
                (handle (Change "ab") (mount (Sample.field "" true 0))))
    by (apply reach_event; [apply reach_mount | exact I]).
  assert (M : In (Some "ab", false)
                (commits (calls (handle (Change "ab")
                   (mount (Sample.field "" true 0))))))
    by (left; reflexivity).
  split; [exact R | split; [exact M |]].
  exact (notifications_are_honest _ _ R (Some "ab") false M).
Defined.

(** With a validator that accepts everything and no required flag, the
    rule gives [true] for every value. *)
Lemma validity_permissive p v :
  (forall x, validation p x = true) -> required p = false ->
  validity p v = true.
Proof.
  intros A N. unfold validity. rewrite A, N. now destruct (0 <? Js.length v)%nat.
Qed.

Lemma permissive_valid p w :
  (forall x, validation p x = true) -> required p = false ->
  reachable userEvent p w -> valid (state w) = true.
Proof.
  intros A N R.
  induction R as [|w e R IH Q|w l1 tm l2 R IH E|w t R IH].
  - rewrite mount_state. cbn. now apply validity_permissive.
  - destruct (userEvent_under_honest p w R) as [[Hp _] _].
    destruct e as [text| | | |u]; cbn [handle]; try contradiction.
    + destruct (0 ?= delay (props w)) eqn:C;
        [rewrite handleInput_now by congruence
        | rewrite handleInput_later by exact C
        | rewrite handleInput_now by congruence];
        cbn; rewrite ?Hp; now try apply validity_permissive.
    + exact IH.
    + exact IH.
    + unfold handleClear. now destruct (readOnly (props w)).
  - destruct (userEvent_under_honest p w R) as [[_ HF] _].
    rewrite E in HF. apply Forall_app in HF. destruct HF as [_ F2].
    apply Forall_cons_iff in F2. destruct F2 as [Ft _].
    destruct (Js_eqb_spec (arg tm) (inputValue w)) as [C|C].
    + rewrite fire_current by exact C. cbn. rewrite Ft.
      now apply validity_permissive.
    + rewrite fire_stale by exact C. exact IH.
  - exact IH.
Qed.

(** X8.  Under props whose validator accepts every value and that do not
    require one, as the default props do, no event of the user makes the
    field invalid: [valid] is true in every reachable state, and every
    value-changed notification reports [true]. *)
Theorem permissive_field_is_never_invalid (p : Props) (w : Instance) :
  (forall x, validation p x = true) -> required p = false ->
  reachable userEvent p w ->
  valid (state w) = true
  /\ forall v ok, In (v, ok) (commits (calls w)) -> ok = true.
Proof.
  intros A N R. split; [now apply (permissive_valid p) |].
  intros v ok M.
  destruct (userEvent_under_honest p w R) as [_ H].
  unfold honest in H. rewrite Forall_forall in H.
  pose proof (H (v, ok) M) as K. cbn in K. rewrite K.
  now apply validity_permissive.
Qed.

Lemma permissive_field_is_never_invalid_witness :
  (forall x, validation defaultProps x = true)
  /\ required defaultProps = false
  /\ reachable userEvent defaultProps
       (handle Clear (settle (handle (Change "a") (mount defaultProps))))
  /\ valid (state (handle Clear
       (settle (handle (Change "a") (mount defaultProps))))) = true.
Proof.
  assert (A : forall x, validation defaultProps x = true) by reflexivity.
  assert (R : reachable userEvent defaultProps
                (handle Clear (settle (handle (Change "a") (mount defaultProps))))).
  { apply reach_event; [| exact I]. apply settle_reachable.
    apply reach_event; [apply reach_mount | exact I]. }
  split; [exact A | split; [reflexivity | split; [exact R |]]].
  exact (proj1 (permissive_field_is_never_invalid _ _ A eq_refl R)).
Defined.

(** ** Typing ends *)

Lemma current_elsewhere w l1 tm l2 x :
  In x (l1 ++ tm :: l2) -> current w x = true -> current w tm = false ->
  In x (l1 ++ l2).
Proof.
  intros M Cx Ct. apply in_app_or in M. apply in_or_app.
  destruct M as [M | [M | M]]; [now left | | now right].
  subst x. congruence.
Qed.

Lemma current_iff w tm : current w tm = true <-> arg tm = inputValue w.
Proof.
  unfold current. destruct (Js_eqb_spec (arg tm) (inputValue w)); split;
    congruence.
Qed.

Lemma stale_iff w tm : current w tm = false -> arg tm <> inputValue w.
Proof. intros C K. apply current_iff in K. congruence. Qed.

Lemma awaited_reachable p w : reachable keepsValue p w -> awaited w.
Proof.
  induction 1 as [|w e R IH Q|w l1 tm l2 R IH E|w t R IH].
  - intros T. rewrite mount_state in T. discriminate T.
  - destruct e as [text| | | |u]; cbn [handle].
    + destruct (0 ?= delay (props w)) eqn:C;
        [rewrite handleInput_now by congruence
        | rewrite handleInput_later by exact C
        | rewrite handleInput_now by congruence];
        intros T; try discriminate T.
      eexists. split; [cbn [timers]; apply in_elt |].
      unfold current. cbn. apply String.eqb_refl.
    + exact IH.
    + exact IH.
    + unfold handleClear. now destruct (readOnly (props w)).
    + cbn in Q. destruct (validationChanged u (props w)) eqn:C.
      * rewrite (receiveProps_validation u w C), Q. exact IH.
      * rewrite (receiveProps_same u w Q C). exact IH.
  - destruct (current w tm) eqn:C.
    + rewrite fire_current by exact (proj1 (current_iff w tm) C).
      intros T. discriminate T.
    + rewrite fire_stale by exact (stale_iff w tm C).
      intros T. destruct (IH T) as (x & M & Cx). exists x.
      split; [| exact Cx]. cbn [timers setTimers]. rewrite E in M.
      now apply (current_elsewhere w l1 tm l2).
  - exact IH.
Qed.

Lemma settle_ends_typing : forall n w,
  (List.length (timers w) <= n)%nat -> awaited w ->
  typing (state (elapse n None w)) = false.
Proof.
  assert (Z : forall w, timers w = [] -> awaited w ->
                typing (state w) = false).
  { intros w E A. destruct (typing (state w)) eqn:T; [| reflexivity].
    destruct (A T) as (x & M & _). rewrite E in M. destruct M. }
  induction n as [|n IH]; intros w L A.
  - apply Z; [| exact A]. cbn [elapse].
    destruct (timers w) eqn:T; [reflexivity | simpl in L; lia].
  - cbn [elapse]. destruct (pick (timers w)) as [[tm rest]|] eqn:P.
    + cbn [within]. destruct (pick_split _ _ _ P) as (l1 & l2 & E & ->).
      rewrite E, length_app in L. simpl in L.
      apply IH.
      * destruct (fire_frame tm (setClock (due tm) (setTimers (l1 ++ l2) w)))
          as (_ & _ & -> & _).
        cbn. rewrite length_app. lia.
      * destruct (current w tm) eqn:C.
        -- rewrite fire_current by exact (proj1 (current_iff w tm) C).
           intros T. discriminate T.
        -- rewrite fire_stale by exact (stale_iff w tm C).
           intros T. destruct (A T) as (x & M & Cx). exists x.
           split; [| exact Cx]. cbn [timers setClock setTimers].
           rewrite E in M. now apply (current_elsewhere w l1 tm l2).
    + apply Z; [now apply pick_nil | exact A].
Qed.

(** A larger set of events reaches at least the same instances. *)
Lemma reachable_weaken (ok ok' : Instance -> Event -> Prop) p w :
  (forall x e, ok x e -> ok' x e) ->
  reachable ok p w -> reachable ok' p w.
Proof.
  intros Sub. induction 1 as [|w e R IH Q|w l1 tm l2 R IH E|w t R IH].
  - apply reach_mount.
  - apply reach_event; [exact IH | now apply Sub].
  - now apply reach_fire.
  - now apply reach_tick.
Qed.

(** X13.  As long as the props stay those of the mount, [typing] cannot stay
    set: in every instance reached by the events of the user and by timer
    firings, once the pending timers have fired, [typing] is false. *)
Theorem typing_ends_when_timers_have_fired (p : Props) (w : Instance) :
  reachable userEvent p w -> typing (state (settle w)) = false.
Proof.
  intros R. apply settle_ends_typing; [lia |].
  apply (awaited_reachable p).
  apply (reachable_weaken userEvent keepsValue); [| exact R].
  intros x [text| | | |u]; simpl; tauto.
Qed.

Lemma typing_ends_when_timers_have_fired_witness :
  reachable userEvent Sample.signup (run Sample.retyped (mount Sample.signup))
  /\ typing (state (run Sample.retyped (mount Sample.signup))) = true
  /\ typing (state (settle (run Sample.retyped (mount Sample.signup)))) = false.
Proof.
  assert (R : reachable userEvent Sample.signup
                (run Sample.retyped (mount Sample.signup))).
  { apply run_reachable; [| apply reach_mount].
    repeat constructor. }
  split; [exact R | split; [reflexivity |]].
  exact (typing_ends_when_timers_have_fired _ _ R).
Defined.

(** ** The ref mirrors the value *)

Lemma mirrored_reachable p w : reachable oneAtATime p w -> mirrored w.
Proof.
  induction 1 as [|w e R IH Q|w l1 tm l2 R IH E|w t R IH].
  - right. now rewrite mount_state.
  - destruct e as [text| | | |u]; cbn [handle].
    + right.
      destruct (0 ?= delay (props w)) eqn:C;
        [rewrite handleInput_now by congruence
        | rewrite handleInput_later by exact C
        | rewrite handleInput_now by congruence]; reflexivity.
    + exact IH.
    + exact IH.
    + unfold handleClear. destruct (readOnly (props w)); [exact IH | now left].
    + cbn in Q.
      destruct (validationChanged u (props w)) eqn:C.
      * rewrite andb_true_r in Q.
        rewrite (receiveProps_validation u w C), Q. exact IH.
      * destruct (initialValueChanged u (props w)) eqn:D.
        -- destruct (receiveProps_new_value u w D C) as [E1 E2].
           right. now rewrite E1, E2.
        -- rewrite (receiveProps_same u w D C). exact IH.
  - destruct (current w tm) eqn:C.
    + apply current_iff in C. rewrite fire_current by exact C.
      right. exact C.
    + rewrite fire_stale by exact (stale_iff w tm C).
      exact IH.
  - exact IH.
Qed.

(** X14.  Unless the field has been cleared, the value of the state is the
    text held in the ref.  This holds in every instance reached by
    keystrokes, focus, blur, clear, timer firings and new props, except new
    props that change the initial value together with the validator or the
    required flag. *)
Theorem value_mirrors_ref (p : Props) (w : Instance) :
  reachable oneAtATime p w ->
  value (state w) <> None -> value (state w) = inputValue w.
Proof.
  intros R N. destruct (mirrored_reachable p w R) as [H | H];
    [contradiction | exact H].
Qed.

Lemma value_mirrors_ref_witness :
  reachable oneAtATime Sample.signup
    (receiveProps (Sample.valueTo "abcd") (mount Sample.signup))
  /\ value (state (receiveProps (Sample.valueTo "abcd") (mount Sample.signup)))
       <> None
  /\ value (state (receiveProps (Sample.valueTo "abcd") (mount Sample.signup)))
       = Some "abcd".
Proof.
  assert (R : reachable oneAtATime Sample.signup
                (receiveProps (Sample.valueTo "abcd") (mount Sample.signup)))
    by (apply (reach_event oneAtATime Sample.signup (mount Sample.signup)
                 (Receive (Sample.valueTo "abcd")));
        [apply reach_mount | reflexivity]).
  assert (N : value (state (receiveProps (Sample.valueTo "abcd")
                (mount Sample.signup))) <> None) by (cbn; discriminate).
  split; [exact R | split; [exact N |]].
  rewrite (value_mirrors_ref _ _ R N). reflexivity.
Defined.

(** ** The last keystroke is committed *)

Lemma settle_commits_ref p : forall n w,
  (List.length (timers w) <= n)%nat ->
  Forall (fun tm => env_props tm = p) (timers w) ->
  (exists tm, In tm (timers w) /\ current w tm = true) \/ committed p w ->
  committed p (elapse n None w).
Proof.
  assert (Z : forall w, timers w = [] ->
    (exists tm, In tm (timers w) /\ current w tm = true) \/ committed p w ->
    committed p w).
  { intros w E [(x & M & _) | H]; [| exact H]. rewrite E in M. destruct M. }
  induction n as [|n IH]; intros w L F H.
  - apply Z; [| exact H]. cbn [elapse].
    destruct (timers w) eqn:T; [reflexivity | simpl in L; lia].
  - cbn [elapse]. destruct (pick (timers w)) as [[tm rest]|] eqn:P.
    + cbn [within]. destruct (pick_split _ _ _ P) as (l1 & l2 & E & ->).
      rewrite E, length_app in L. simpl in L.
      rewrite E in F. apply Forall_app in F. destruct F as [F1 F2].
      apply Forall_cons_iff in F2. destruct F2 as [Ft F2].
      assert (F' : Forall (fun x => env_props x = p) (l1 ++ l2))
        by (apply Forall_app; split; assumption).
      apply IH.
      * destruct (fire_frame tm (setClock (due tm) (setTimers (l1 ++ l2) w)))
          as (_ & _ & -> & _).
        cbn. rewrite length_app. lia.
      * destruct (fire_frame tm (setClock (due tm) (setTimers (l1 ++ l2) w)))
          as (_ & _ & -> & _). exact F'.
      * destruct (current w tm) eqn:C.
        -- pose proof (proj1 (current_iff w tm) C) as K.
           rewrite fire_current by exact K.
           right. unfold committed. cbn. rewrite Ft, K. now repeat split.
        -- rewrite fire_stale by exact (stale_iff w tm C).
           destruct H as [(x & M & Cx) | H]; [left | right; exact H].
           exists x. split; [| exact Cx]. cbn [timers setClock setTimers].
           rewrite E in M. now apply (current_elsewhere w l1 tm l2).
    + apply Z; [now apply pick_nil | exact H].
Qed.

Lemma elapse_keeps_ref d : forall n w,
  inputValue (elapse n d w) = inputValue w.
Proof.
  induction n as [|n IH]; intros w; cbn [elapse]; [reflexivity |].
  destruct (pick (timers w)) as [[tm rest]|]; [| reflexivity].
  destruct (within d (due tm)); [| reflexivity].
  rewrite IH. now destruct (fire_frame tm (setClock (due tm) (setTimers rest w)))
    as (_ & -> & _).
Qed.

(** X1.  However the texts typed before repeat, a keystroke under a positive
    delay is committed in the end: once the pending timers have fired, the
    state holds the typed text with its validity and [typing] is false, and
    every value-changed notification made since the keystroke, of which there
    is at least one, carries that text and validity. *)
Theorem last_keystroke_is_committed (p : Props) (w : Instance) (text : string) :
  reachable userEvent p w -> 0 < delay p ->
  let w' := settle (handle (Change text) w) in
  let ok := validity p (Some text) in
  value (state w') = Some text
  /\ valid (state w') = ok
  /\ typing (state w') = false
  /\ exists k, commits (calls w') =
       commits (calls w) ++ repeat (Some text, ok) (S k).
Proof.
  intros R D. cbv zeta.
  destruct (userEvent_under_honest p w R) as [[Hp HF] _].
  apply Qlt_alt in D. cbn [handle]. rewrite Hp.
  rewrite (handleInput_later p (state w) text w D).
  set (tm := {| due := clock w + delay p * 1000; env_props := p;
                env_state := state w; arg := Some text |}).
  set (w1 := {| props := props w; state := _; inputValue := Some text;
                timers := timers w ++ [tm]; calls := _; clock := clock w |}).
  assert (F1 : Forall (fun x => env_props x = p) (timers w1)).
  { cbn. apply Forall_app. split; [exact HF | now repeat constructor]. }
  assert (C1 : current w1 tm = true)
    by (unfold current; cbn; apply String.eqb_refl).
  destruct (settle_commits_ref p (List.length (timers w1)) w1 (le_n _) F1)
    as (V1 & V2 & V3).
  { left. exists tm. split; [cbn; apply in_elt | exact C1]. }
  unfold settle. rewrite elapse_keeps_ref in V1, V2.
  repeat split; try assumption.
  rewrite (settle_commits p) by (lia || assumption).
  cbn [timers w1]. rewrite filter_app. cbn [filter]. rewrite C1.
  rewrite length_app, Nat.add_1_r.
  exists (List.length (filter (current w1) (timers w))).
  cbn [calls w1 inputValue].
  now rewrite commits_app, commits_started, app_nil_r.
Qed.

Lemma last_keystroke_is_committed_witness :
  reachable userEvent Sample.signup
    (run (firstn 3 Sample.retyped) (mount Sample.signup))
  /\ 0 < delay Sample.signup
  /\ value (state (settle (handle (Change "ab")
       (run (firstn 3 Sample.retyped) (mount Sample.signup))))) = Some "ab"
  /\ typing (state (settle (handle (Change "ab")
       (run (firstn 3 Sample.retyped) (mount Sample.signup))))) = false.
Proof.
  assert (R : reachable userEvent Sample.signup
                (run (firstn 3 Sample.retyped) (mount Sample.signup))).
  { apply run_reachable; [| apply reach_mount]. repeat constructor. }
  assert (D : 0 < delay Sample.signup) by reflexivity.
  split; [exact R | split; [exact D |]].
  destruct (last_keystroke_is_committed _ _ "ab" R D) as (E1 & _ & E3 & _).
  split; [exact E1 | exact E3].
Defined.

(** ** The callbacks of a burst *)

Lemma last_cons (x y : string) l : last (x :: l) y = last l x.
Proof.
  revert x y. induction l as [|z l IH]; intros x y; [reflexivity |].
  change (last (x :: z :: l) y) with (last (z :: l) y).
  now rewrite (IH z y), (IH z x).
Qed.

Lemma commits_notify cs : commits (map notify cs) = cs.
Proof.
  induction cs as [|[v ok] cs IH]; [reflexivity |]. cbn. now rewrite IH.
Qed.

(** Timers that fire invoke no callback but value-changed. *)
Lemma elapse_only_notifies d : forall n w,
  exists cs, calls (elapse n d w) = calls w ++ map notify cs.
Proof.
  induction n as [|n IH]; intros w; cbn [elapse].
  - exists []. now rewrite app_nil_r.
  - destruct (pick (timers w)) as [[tm rest]|];
      [| exists []; now rewrite app_nil_r].
    destruct (within d (due tm)); [| exists []; now rewrite app_nil_r].
    destruct (IH (fire tm (setClock (due tm) (setTimers rest w)))) as [cs E].
    rewrite E. unfold fire, updateState. cbn [inputValue setClock setTimers].
    destruct (Js.eqb (arg tm) (inputValue w)).
    + exists ((arg tm, if Js.truthy (arg tm)
                       then validate (env_props tm) (arg tm)
                       else negb (required (env_props tm))) :: cs).
      cbn [calls setState invoke setClock setTimers].
      rewrite <- app_assoc. reflexivity.
    + exists cs. reflexivity.
Qed.

Section BurstCalls.

Variable p : Props.
Hypothesis positive : (0 ?= delay p) = Lt.

Lemma burst_first_calls w t v :
  props w = p -> timers w = [] ->
  calls (handle (Change v) (advance t w)) = calls w ++ started (state w)
  /\ typing (state (handle (Change v) (advance t w))) = true.
Proof.
  intros Hp Ht. unfold advance. rewrite Ht. cbn [List.length elapse handle].
  cbn [props setClock]. rewrite Hp, handleInput_later by exact positive.
  split; reflexivity.
Qed.

Lemma burst_step_calls w t v seen t' v' :
  burstInv p t v seen w -> typing (state w) = true ->
  t' < t + delay p * 1000 ->
  calls (handle (Change v') (advance t' w)) = calls w
  /\ typing (state (handle (Change v') (advance t' w))) = true.
Proof.
  intros (Hp & Hr & Hc & HF & Hn) T Lt'.
  rewrite Forall_forall in HF.
  destruct (elapse_stale t' (List.length (timers w)) w)
    as (E1 & E2 & E3 & E4 & E5 & E6).
  { intros tm M C. destruct (HF tm M) as (_ & D & _).
    rewrite D by congruence. now apply Qlt_not_le. }
  unfold advance. cbn [handle props state setClock].
  rewrite E1, Hp, handleInput_later by exact positive.
  cbn [calls state typing setClock]. rewrite E2, E4.
  unfold started. rewrite T, app_nil_r. split; reflexivity.
Qed.

Lemma burst_run_calls : forall rest w t v seen,
  burstInv p t v seen w -> typing (state w) = true ->
  paced (delay p * 1000) t rest ->
  NoDup (map snd rest) ->
  (forall x, In x (map snd rest) -> ~ In x (v :: seen)) ->
  calls (run (keystrokes rest) w) = calls w.
Proof.
  induction rest as [|[t' v'] rest IH]; intros w t v seen B T Pc N F;
    [reflexivity |].
  destruct Pc as (_ & L & Pc). simpl in N. apply NoDup_cons_iff in N.
  destruct N as [N1 N2].
  destruct (burst_step p positive w t v seen t' v' B L) as [B' _].
  { apply F. now left. }
  destruct (burst_step_calls w t v seen t' v' B T L) as [C' T'].
  change (run (keystrokes ((t', v') :: rest)) w)
    with (run (keystrokes rest) (handle (Change v') (advance t' w))).
  rewrite (IH _ _ _ _ B' T' Pc N2); [exact C' |].
  intros x Hx [<- | Hs]; [contradiction |].
  apply (F x); [now right | exact Hs].
Qed.

End BurstCalls.

(** X2.  A burst of keystrokes with pairwise different texts, each less than
    the delay after the one before, on a field that awaits no timer.  During
    the burst the only callback is input-start, once, at the first keystroke
    (if the field was not typing already).  The timers that fire afterwards
    invoke value-changed once, with the last text and its validity, and
    leave the state with that text, that validity and [typing = false]. *)
Theorem distinct_burst_callbacks (p : Props) (w : Instance) (t : Q)
    (v : string) (rest : list (Q * string)) :
  0 < delay p -> props w = p -> timers w = [] ->
  paced (delay p * 1000) t rest ->
  NoDup (v :: map snd rest) ->
  let w' := run (keystrokes ((t, v) :: rest)) w in
  let final := Some (last (map snd rest) v) in
  calls w' = calls w ++ started (state w)
  /\ calls (settle w') =
       calls w ++ started (state w) ++ [onValueChange final (validity p final)]
  /\ value (state (settle w')) = final
  /\ valid (state (settle w')) = validity p final
  /\ typing (state (settle w')) = false.
Proof.
  intros D Hp Ht Pc N. apply Qlt_alt in D.
  apply NoDup_cons_iff in N. destruct N as [N1 N2].
  assert (Fr : forall x, In x (map snd rest) -> ~ In x [v])
    by (intros x Hx [<- | []]; contradiction).
  destruct (burst_first p D w t v Hp Ht) as [B _].
  destruct (burst_first_calls p D w t v Hp Ht) as [C T].
  destruct (burst_run p D rest _ _ _ _ B Pc N2 Fr) as [_ (t' & seen' & B')].
  pose proof (burst_run_calls p D rest _ _ _ _ B T Pc N2 Fr) as C'.
  cbv zeta.
  change (run (keystrokes ((t, v) :: rest)) w)
    with (run (keystrokes rest) (handle (Change v) (advance t w))).
  set (w' := run (keystrokes rest) (handle (Change v) (advance t w))) in *.
  destruct B' as (Bp & Br & _ & BF & Bn).
  assert (F' : Forall (fun tm => env_props tm = p) (timers w'))
    by (eapply Forall_impl; [| exact BF]; intros tm H; apply H).
  assert (EC : calls w' = calls w ++ started (state w)) by congruence.
  split; [exact EC |].
  assert (X : exists tm, In tm (timers w') /\ current w' tm = true).
  { destruct (filter (current w') (timers w')) as [|tm l] eqn:Fl;
      [discriminate Bn |].
    exists tm. apply filter_In. rewrite Fl. now left. }
  destruct (settle_commits_ref p (List.length (timers w')) w' (le_n _) F'
              (or_introl X)) as (V1 & V2 & V3).
  rewrite elapse_keeps_ref, Br in V1, V2.
  split; [| now repeat split].
  unfold settle.
  destruct (elapse_only_notifies None (List.length (timers w')) w') as [cs E].
  pose proof (settle_commits p (List.length (timers w')) w' (le_n _) F') as S.
  rewrite E, commits_app, commits_notify, Bn, Br in S.
  apply app_inv_head in S. rewrite E, S, EC, <- app_assoc. reflexivity.
Qed.

Lemma distinct_burst_callbacks_witness :
  0 < delay Sample.signup
  /\ paced (delay Sample.signup * 1000) 0 [(100, "ab"); (200, "abc")]
  /\ NoDup ["a"; "ab"; "abc"]
  /\ calls (settle (run Sample.burst (mount Sample.signup))) =
       [onInputStart; onValueChange (Some "abc") true].
Proof.
  assert (D : 0 < delay Sample.signup) by reflexivity.
  assert (Pc : paced (delay Sample.signup * 1000) 0
                 [(100, "ab"); (200, "abc")])
    by (simpl; unfold Qle, Qlt; simpl; lia).
  assert (N : NoDup ["a"; "ab"; "abc"])
    by (repeat constructor; simpl; intuition discriminate).
  split; [exact D | split; [exact Pc | split; [exact N |]]].
  exact (proj1 (proj2 (distinct_burst_callbacks Sample.signup
    (mount Sample.signup) 0 "a" [(100, "ab"); (200, "abc")]
    D eq_refl eq_refl Pc N))).
Defined.

(** ** Keystrokes without a delay *)

Lemma advance_idle t w : timers w = [] -> advance t w = setClock t w.
Proof. intros E. unfold advance. now rewrite E. Qed.

Section Immediate.

Variable p : Props.
Hypothesis immediate : (0 ?= delay p) <> Lt.

Lemma immediate_step w t v :
  props w = p -> timers w = [] ->
  handle (Change v) (advance t w) =
    {| props := p;
       state := {| value := Some v; valid := validity p (Some v);
                   typing := false; focused := focused (state w) |};
       inputValue := Some v; timers := [];
       calls := calls w ++ started (state w)
                  ++ [onValueChange (Some v) (validity p (Some v))];
       clock := t |}.
Proof.
  intros Hp Ht. rewrite (advance_idle t w Ht). cbn [handle props state setClock].
  rewrite Hp, handleInput_now by exact immediate.
  cbn [props timers calls clock setClock]. now rewrite Hp, Ht.
Qed.

Lemma immediate_run : forall rest w t v,
  props w = p -> timers w = [] ->
  let w' := run (keystrokes ((t, v) :: rest)) w in
  props w' = p /\ timers w' = []
  /\ calls w' =
       calls w ++ started (state w)
         ++ [onValueChange (Some v) (validity p (Some v))]
         ++ flat_map (fun k => [onInputStart;
                                onValueChange (Some (snd k))
                                  (validity p (Some (snd k)))]) rest
  /\ state w' =
       {| value := Some (last (map snd rest) v);
          valid := validity p (Some (last (map snd rest) v));
          typing := false; focused := focused (state w) |}.
Proof.
  induction rest as [|[t' v'] rest IH]; intros w t v Hp Ht; cbv zeta.
  - change (run (keystrokes [(t, v)]) w)
      with (handle (Change v) (advance t w)).
    rewrite (immediate_step w t v Hp Ht).
    cbn [flat_map map last props timers calls state]. rewrite app_nil_r.
    now repeat split.
  - change (run (keystrokes ((t, v) :: (t', v') :: rest)) w)
      with (run (keystrokes ((t', v') :: rest))
              (handle (Change v) (advance t w))).
    rewrite (immediate_step w t v Hp Ht).
    match goal with |- context [run _ ?x] =>
      destruct (IH x t' v' eq_refl eq_refl) as (I1 & I2 & I3 & I4) end.
    rewrite I1, I2, I3, I4.
    change (map snd ((t', v') :: rest)) with (v' :: map snd rest).
    rewrite last_cons. cbn [calls state focused started typing flat_map snd].
    repeat split. rewrite <- !app_assoc. reflexivity.
Qed.

End Immediate.

(** X3.  With a delay of zero or less, on a field that awaits no timer,
    every keystroke is committed in its own event: value-changed is invoked
    for each text in order, no timer is ever set, and since each commit
    resets [typing], input-start is invoked again at every keystroke after
    the first. *)
Theorem undelayed_keystrokes_commit_each (p : Props) (w : Instance) (t : Q)
    (v : string) (rest : list (Q * string)) :
  delay p <= 0 -> props w = p -> timers w = [] ->
  let w' := run (keystrokes ((t, v) :: rest)) w in
  timers w' = []
  /\ calls w' =
       calls w ++ started (state w)
         ++ [onValueChange (Some v) (validity p (Some v))]
         ++ flat_map (fun k => [onInputStart;
                                onValueChange (Some (snd k))
                                  (validity p (Some (snd k)))]) rest
  /\ state w' =
       {| value := Some (last (map snd rest) v);
          valid := validity p (Some (last (map snd rest) v));
          typing := false; focused := focused (state w) |}.
Proof.
  intros D Hp Ht.
  assert (C : (0 ?= delay p) <> Lt).
  { intros L. apply Qlt_alt in L. apply (Qlt_not_le _ _ L D). }
  destruct (immediate_run p C rest w t v Hp Ht) as (_ & I2 & I3 & I4).
  cbv zeta. now repeat split.
Qed.

Lemma undelayed_keystrokes_commit_each_witness :
  delay (Sample.field "" true 0) <= 0
  /\ calls (run Sample.burst (mount (Sample.field "" true 0))) =
       [onInputStart; onValueChange (Some "a") false;
        onInputStart; onValueChange (Some "ab") false;
        onInputStart; onValueChange (Some "abc") true].
Proof.
  assert (D : delay (Sample.field "" true 0) <= 0)
    by (unfold Qle; simpl; lia).
  split; [exact D |].
  exact (proj1 (proj2 (undelayed_keystrokes_commit_each
    (Sample.field "" true 0) (mount (Sample.field "" true 0)) 0 "a"
    [(100, "ab"); (200, "abc")] D eq_refl eq_refl))).
Defined.

(** ** New props while a timer is pending *)

(** X12.  New props, whatever they change, set or drop no timer, invoke no
    callback and leave the clock, [typing] and [focused] as they were. *)
Theorem receiveProps_frame (u : Update) (w : Instance) :
  timers (receiveProps u w) = timers w
  /\ calls (receiveProps u w) = calls w
  /\ clock (receiveProps u w) = clock w
  /\ typing (state (receiveProps u w)) = typing (state w)
  /\ focused (state (receiveProps u w)) = focused (state w)
  /\ props (receiveProps u w) = updated u (props w).
Proof.
  unfold receiveProps.
  destruct (initialValueChanged u (props w)),
           (validationChanged u (props w)); repeat split.
Qed.

Section PendingKeystroke.

Variables (w : Instance) (text : string) (u : Update).
Hypothesis deferred : 0 < delay (props w).
Hypothesis idle : timers w = [].

(** X17.  A change of the validator or of the required flag that comes
    between a keystroke and the firing of its timer revalidates the typed
    text at once under the new props, but the timer then commits it with the
    validity under the props of the keystroke. *)
Theorem pending_keystroke_keeps_old_validator :
  initialValueChanged u (props w) = false ->
  validationChanged u (props w) = true ->
  valid (state (receiveProps u (handle (Change text) w))) =
    validity (updated u (props w)) (Some text)
  /\ props (settle (receiveProps u (handle (Change text) w))) =
       updated u (props w)
  /\ state (settle (receiveProps u (handle (Change text) w))) =
       {| value := Some text; valid := validity (props w) (Some text);
          typing := false; focused := focused (state w) |}
  /\ commits (calls (settle (receiveProps u (handle (Change text) w)))) =
       commits (calls w) ++ [(Some text, validity (props w) (Some text))].
Proof.
  intros Hi Hv.
  assert (C : (0 ?= delay (props w)) = Lt) by (apply Qlt_alt; exact deferred).
  cbn [handle]. rewrite (handleInput_later _ _ _ _ C), idle.
  rewrite receiveProps_validation by exact Hv.
  cbn [props state value typing focused inputValue timers calls clock].
  rewrite Hi. split; [reflexivity |].
  erewrite settle_single by reflexivity.
  rewrite fire_current by reflexivity.
  split; [reflexivity | split; [reflexivity |]]. cbn.
  now rewrite !commits_app, commits_started, app_nil_r.
Qed.

(** X18.  A change of the initial value to another text, between a keystroke
    and the firing of its timer, replaces the typed text and the ref.  The
    timer then finds the ref changed and does nothing: the keystroke is
    never notified, and [typing] stays set. *)
Theorem new_value_drops_pending_keystroke :
  initialValueChanged u (props w) = true ->
  validationChanged u (props w) = false ->
  initialValue (updated u (props w)) <> Some text ->
  state (settle (receiveProps u (handle (Change text) w))) =
    {| value := initialValue (updated u (props w));
       valid := validity (updated u (props w)) (Some text);
       typing := true; focused := focused (state w) |}
  /\ commits (calls (settle (receiveProps u (handle (Change text) w)))) =
       commits (calls w)
  /\ timers (settle (receiveProps u (handle (Change text) w))) = [].
Proof.
  intros Hi Hv Hn.
  assert (C : (0 ?= delay (props w)) = Lt) by (apply Qlt_alt; exact deferred).
  cbn [handle]. rewrite (handleInput_later _ _ _ _ C), idle.
  unfold receiveProps. cbn [props state]. rewrite Hi, Hv.
  unfold effectInitialValue. rewrite validate_validity.
  cbn [setState setCurrent setProps props state value typing focused
       inputValue timers calls clock app].
  erewrite settle_single by reflexivity.
  rewrite fire_stale by (cbn; intros K; apply Hn; now rewrite K).
  split; [reflexivity | split; [| reflexivity]]. cbn.
  now rewrite commits_app, commits_started, app_nil_r.
Qed.

End PendingKeystroke.

Lemma pending_keystroke_keeps_old_validator_witness :
  0 < delay (props (mount Sample.signup))
  /\ timers (mount Sample.signup) = []
  /\ initialValueChanged (Sample.requiredTo false) (props (mount Sample.signup))
     = false
  /\ validationChanged (Sample.requiredTo false) (props (mount Sample.signup))
     = true
  /\ valid (state (receiveProps (Sample.requiredTo false)
                    (handle (Change "") (mount Sample.signup)))) = true
  /\ valid (state (settle (receiveProps (Sample.requiredTo false)
                    (handle (Change "") (mount Sample.signup))))) = false.
Proof.
  assert (D : 0 < delay (props (mount Sample.signup))) by reflexivity.
  split; [exact D |]. repeat (split; [reflexivity |]).
  rewrite (proj1 (proj2 (proj2 (pending_keystroke_keeps_old_validator
    (mount Sample.signup) "" (Sample.requiredTo false) D eq_refl
    eq_refl eq_refl)))).
  reflexivity.
Defined.

Lemma new_value_drops_pending_keystroke_witness :
  0 < delay (props (mount Sample.signup))
  /\ timers (mount Sample.signup) = []
  /\ initialValueChanged (Sample.valueTo "abcd") (props (mount Sample.signup))
     = true
  /\ validationChanged (Sample.valueTo "abcd") (props (mount Sample.signup))
     = false
  /\ initialValue (updated (Sample.valueTo "abcd") (props (mount Sample.signup)))
     <> Some "xyz"
  /\ state (settle (receiveProps (Sample.valueTo "abcd")
              (handle (Change "xyz") (mount Sample.signup)))) =
     {| value := Some "abcd"; valid := true; typing := true;
        focused := false |}.
Proof.
  assert (D : 0 < delay (props (mount Sample.signup))) by reflexivity.
  assert (N : initialValue (updated (Sample.valueTo "abcd")
                (props (mount Sample.signup))) <> Some "xyz")
    by (cbn; discriminate).
  split; [exact D |].
  split; [reflexivity | split; [reflexivity | split; [reflexivity |]]].
  split; [exact N |].
  rewrite (proj1 (new_value_drops_pending_keystroke
    (mount Sample.signup) "xyz" (Sample.valueTo "abcd") D eq_refl
    eq_refl eq_refl N)).
  reflexivity.
Defined.

(** ** Value-changed, once per current timer *)

(** X16.  As long as the props stay those of the mount: when the pending
    timers fire, value-changed is invoked once for every pending timer whose
    text is the one held in the ref, each time with that text and its
    validity, and for no other timer. *)
Theorem settle_notifies_per_current_timer (p : Props) (w : Instance) :
  reachable userEvent p w ->
  calls (settle w) =
    calls w ++ repeat (onValueChange (inputValue w) (validity p (inputValue w)))
                 (List.length (filter (current w) (timers w))).
Proof.
  intros R. destruct (userEvent_under_honest p w R) as [[_ HF] _].
  unfold settle.
  destruct (elapse_only_notifies None (List.length (timers w)) w) as [cs E].
  pose proof (settle_commits p (List.length (timers w)) w (le_n _) HF) as S.
  rewrite E, commits_app, commits_notify in S. apply app_inv_head in S.
  rewrite E, S. f_equal.
  generalize (List.length (filter (current w) (timers w))).
  induction n as [|n IH]; [reflexivity |]. cbn. now rewrite IH.
Qed.

Lemma settle_notifies_per_current_timer_witness :
  reachable userEvent Sample.signup (run Sample.retyped (mount Sample.signup))
  /\ calls (settle (run Sample.retyped (mount Sample.signup))) =
       calls (run Sample.retyped (mount Sample.signup))
         ++ [onValueChange (Some "ab") false; onValueChange (Some "ab") false].
Proof.
  assert (R : reachable userEvent Sample.signup
                (run Sample.retyped (mount Sample.signup))).
  { apply run_reachable; [| apply reach_mount]. repeat constructor. }
  split; [exact R |].
  rewrite (settle_notifies_per_current_timer _ _ R). reflexivity.
Defined.

(** ** A firing after new props *)

(** C1.  A required field holds "abc" and is emptied at 0 ms under a delay of
    0.25 s; at 100 ms the props make the field optional, and the state is
    revalidated as valid.  At 250 ms the timer fires with the empty text,
    which is the text held in the ref, and commits it with [valid = false]:
    the firing negates the required flag of the render in which the key was
    pressed, where the rule for the field, no longer required, gives
    [true]. *)
Theorem firing_validates_under_the_props_of_the_keystroke :
  let p := Sample.field "abc" true (1 # 4) in
  let w := run [(0, Change ""); (100, Receive (Sample.requiredTo false))]
               (mount p) in
  required (props w) = false
  /\ inputValue w = Some ""
  /\ map arg (timers w) = [Some ""]
  /\ state w =
       {| value := Some ""; valid := true; typing := true; focused := false |}
  /\ calls w = [onInputStart]
  /\ state (advance 250 w) =
       {| value := Some ""; valid := false; typing := false;
          focused := false |}
  /\ calls (advance 250 w) = [onInputStart; onValueChange (Some "") false]
  /\ required (props (advance 250 w)) = false
  /\ validity (props (advance 250 w)) (Some "") = true.
Proof. cbv zeta. repeat split. Qed.

(** ** Focus and blur, with time in between *)

(** C8, as stated, fails: "abc" is typed under a delay of 0.25 s into an
    empty required field that wants three characters; a focus right away
    reports ("abc", false); the timer fires at 250 ms and commits the text as
    valid; a blur at 300 ms, with no edit since the focus, reports
    ("abc", true). *)
Lemma focus_and_blur_pairs_can_differ :
  ~ (forall p w t, reachable userEvent p w ->
     forall v ok,
       last (calls (handle Focus w)) onInputStart = onFocus v ok ->
       last (calls (handle Blur (advance t (handle Focus w)))) onInputStart
         = onBlur v ok).
Proof.
  intros H.
  assert (R : reachable userEvent Sample.signup
                (handle (Change "abc") (mount Sample.signup)))
    by (apply reach_event; [apply reach_mount | exact I]).
  specialize (H _ _ 300 R (Some "abc") false eq_refl).
  vm_compute in H. discriminate H.
Qed.

(** C8, amended.  Focus sets [focused] and blur resets it; each invokes its
    callback with the value and validity of the current state and changes
    nothing else: [value], [valid], [typing], the ref and the timers stay.
    A focus followed by a blur after any lapse of time, with no event in
    between and no timer for the text of the ref coming due in that time,
    invokes the focus callback and then the blur callback with the same
    pair, and nothing else. *)
Theorem setFocus_contract_without_commit (w : Instance) (t : Q) :
  let v := value (state w) in
  let ok := valid (state w) in
  (state (handle Focus w) =
     {| value := v; valid := ok; typing := typing (state w); focused := true |}
   /\ calls (handle Focus w) = calls w ++ [onFocus v ok]
   /\ inputValue (handle Focus w) = inputValue w
   /\ timers (handle Focus w) = timers w)
  /\ (state (handle Blur w) =
     {| value := v; valid := ok; typing := typing (state w); focused := false |}
   /\ calls (handle Blur w) = calls w ++ [onBlur v ok]
   /\ inputValue (handle Blur w) = inputValue w
   /\ timers (handle Blur w) = timers w)
  /\ ((forall tm, In tm (timers w) -> arg tm = inputValue w -> ~ due tm <= t) ->
      calls (handle Blur (advance t (handle Focus w))) =
        calls w ++ [onFocus v ok; onBlur v ok]
      /\ state (handle Blur (advance t (handle Focus w))) =
        {| value := v; valid := ok; typing := typing (state w);
           focused := false |}).
Proof.
  cbv zeta. split; [now repeat split | split; [now repeat split |]].
  intros H.
  destruct (elapse_stale t (List.length (timers (handle Focus w)))
              (handle Focus w) H) as (_ & E2 & _ & E4 & _).
  unfold advance. cbn [handle setFocus state calls setClock setState invoke].
  cbn [handle] in E2, E4. rewrite E2, E4. cbn [setFocus state calls setState invoke value valid typing].
  split; [now rewrite <- app_assoc | reflexivity].
Qed.

Lemma setFocus_contract_without_commit_witness :
  (forall tm, In tm (timers (handle (Change "abc") (mount Sample.signup))) ->
     arg tm = inputValue (handle (Change "abc") (mount Sample.signup)) ->
     ~ due tm <= 100)
  /\ calls (handle Blur (advance 100 (handle Focus
       (handle (Change "abc") (mount Sample.signup))))) =
     [onInputStart; onFocus (Some "abc") false; onBlur (Some "abc") false].
Proof.
  assert (H : forall tm,
            In tm (timers (handle (Change "abc") (mount Sample.signup))) ->
            arg tm = inputValue (handle (Change "abc") (mount Sample.signup)) ->
            ~ due tm <= 100).
  { intros tm [<- | []] _. unfold Qle. simpl. lia. }
  split; [exact H |].
  exact (proj1 (proj2 (proj2 (setFocus_contract_without_commit
    (handle (Change "abc") (mount Sample.signup)) 100)) H)).
Defined.
